(** * URL shortener: the expiry-aware upsert protocol

    A shallow embedding of the two editions of the Express server found in
    the repository:

    - [V1]: [src/index.js], where the time limit is a mutable module
      variable [DEFAULT_TIME_LIMIT] and records carry no [expiry] field;
    - [V2]: [src/unnamed/part_000], where [DEFAULT_TIME_LIMIT] is a constant,
      every write carries an [expiry] text field and the handlers compute a
      per-request [effectiveExpiry].

    The file has three layers: the fragment of JavaScript the handlers rely
    on (truthiness, [parseInt], [Number] arithmetic with [NaN],
    [Date.prototype.toISOString]), the PocketBase collection seen through
    the three calls the handlers make, and the handlers themselves. *)

From stdpp Require Import base list strings gmap pretty sorting.
From Stdlib Require Import ZArith Lia Ascii.

Open Scope Z_scope.

(** ** JavaScript values and numbers *)

(** A [Number] as the handlers meet it: an integer or [NaN].  The integers
    are exact; a double carries every integer up to [MAX_SAFE_INTEGER]
    exactly, prints it in plain decimal digits and compares it exactly, and
    every time value of a [Date] lies in that range.  Beyond it a double
    rounds, and from [10^21] on prints with an exponent: a property that
    depends on the value or the text of a number the caller supplies is
    therefore stated for numbers [safe_number] accepts. *)
Inductive jsnum : Type :=
  | NaN
  | Num (z : Z).

(** A value read from a field of the JSON object a request carries as its
    body.  [JUndefined] is an absent field.  JSON numbers are taken to be
    integral (the contract is a count of milliseconds); objects and arrays
    are not represented. *)
Inductive jsval : Type :=
  | JUndefined
  | JNull
  | JBool (b : bool)
  | JNum (z : Z)
  | JStr (s : string).

(** [Number.MAX_SAFE_INTEGER], [2^53 - 1]. *)
Definition MAX_SAFE_INTEGER : Z := 9007199254740991.

Definition safe_integer (z : Z) : Prop :=
  - MAX_SAFE_INTEGER <= z <= MAX_SAFE_INTEGER.

(** A number on which the model and a double agree. *)
Definition safe_number (n : jsnum) : Prop :=
  match n with
  | NaN => True
  | Num z => safe_integer z
  end.

(** A body field that, when it is a number, is one a double holds exactly. *)
Definition safe_value (v : jsval) : Prop :=
  match v with
  | JNum z => safe_integer z
  | _ => True
  end.

Global Instance safe_integer_dec (z : Z) : Decision (safe_integer z).
Proof. unfold safe_integer. apply _. Defined.

Global Instance safe_number_dec (n : jsnum) : Decision (safe_number n).
Proof. destruct n; simpl; apply _. Defined.

Global Instance safe_value_dec (v : jsval) : Decision (safe_value v).
Proof. destruct v; simpl; apply _. Defined.

Global Instance jsnum_eq_dec : EqDecision jsnum.
Proof. solve_decision. Defined.

Global Instance jsval_eq_dec : EqDecision jsval.
Proof. solve_decision. Defined.

(** [ToBoolean] on a body field: what [if (expiry)] and [expiry ? _ : _] test. *)
Definition truthy (v : jsval) : bool :=
  match v with
  | JUndefined | JNull => false
  | JBool b => b
  | JNum z => negb (z =? 0)
  | JStr s => negb (bool_decide (s = ""))
  end.

(** [ToBoolean] on a number: what the left operand of [||] is tested with. *)
Definition num_truthy (n : jsnum) : bool :=
  match n with
  | NaN => false
  | Num z => negb (z =? 0)
  end.

(** [a || b] on numbers. *)
Definition num_or (a b : jsnum) : jsnum :=
  if num_truthy a then a else b.

Definition num_add (a b : jsnum) : jsnum :=
  match a, b with
  | Num x, Num y => Num (x + y)
  | _, _ => NaN
  end.

Definition num_sub (a b : jsnum) : jsnum :=
  match a, b with
  | Num x, Num y => Num (x - y)
  | _, _ => NaN
  end.

(** [a > b]: false as soon as one side is [NaN]. *)
Definition num_gt (a b : jsnum) : bool :=
  match a, b with
  | Num x, Num y => y <? x
  | _, _ => false
  end.

(** [a <= b]: false as soon as one side is [NaN]. *)
Definition num_le (a b : jsnum) : bool :=
  match a, b with
  | Num x, Num y => x <=? y
  | _, _ => false
  end.

(** [Number.prototype.toString()], as in [effectiveExpiry.toString()]: the
    decimal digits of the integer, which is the text a double prints for a
    [safe_number]. *)
Definition num_toString (n : jsnum) : string :=
  match n with
  | NaN => "NaN"
  | Num z => pretty z
  end.

(** [ToString] on a body field, the first step of [parseInt]; for a number
    it gives the decimal digits, as a double does for a [safe_value]. *)
Definition ToString (v : jsval) : string :=
  match v with
  | JUndefined => "undefined"
  | JNull => "null"
  | JBool true => "true"
  | JBool false => "false"
  | JNum z => pretty z
  | JStr s => s
  end.

(** *** [parseInt] without a radix argument *)

(** A JavaScript string is held as the bytes of its UTF-8 encoding. *)
Definition byte (c : ascii) : Z := Z.of_nat (nat_of_ascii c).

(** [StrWhiteSpaceChar], by the length of the encoding.  One byte: TAB, LF,
    VT, FF, CR, SP.  Two bytes: U+00A0.  Three bytes: U+1680, U+2000 to
    U+200A, U+2028, U+2029, U+202F, U+205F, U+3000 and U+FEFF. *)
Definition StrWhiteSpaceChar1 (c : ascii) : bool :=
  ((9 <=? byte c) && (byte c <=? 13)) || (byte c =? 32).

Definition StrWhiteSpaceChar2 (c1 c2 : ascii) : bool :=
  (byte c1 =? 194) && (byte c2 =? 160).

Definition StrWhiteSpaceChar3 (c1 c2 c3 : ascii) : bool :=
  ((byte c1 =? 225) && (byte c2 =? 154) && (byte c3 =? 128))
  || ((byte c1 =? 226) && (byte c2 =? 128)
      && (((128 <=? byte c3) && (byte c3 <=? 138))
          || (byte c3 =? 168) || (byte c3 =? 169) || (byte c3 =? 175)))
  || ((byte c1 =? 226) && (byte c2 =? 129) && (byte c3 =? 159))
  || ((byte c1 =? 227) && (byte c2 =? 128) && (byte c3 =? 128))
  || ((byte c1 =? 239) && (byte c2 =? 187) && (byte c3 =? 191)).

(** The first byte of a two-byte, respectively three-byte, white space. *)
Definition lead2 (c : ascii) : bool := byte c =? 194.

Definition lead3 (c : ascii) : bool :=
  (byte c =? 225) || (byte c =? 226) || (byte c =? 227) || (byte c =? 239).

Fixpoint trimStart (s : string) : string :=
  match s with
  | String c s1 =>
      if StrWhiteSpaceChar1 c then trimStart s1
      else if lead2 c then
        match s1 with
        | String c2 s2 => if StrWhiteSpaceChar2 c c2 then trimStart s2 else s
        | EmptyString => s
        end
      else if lead3 c then
        match s1 with
        | String c2 (String c3 s3) =>
            if StrWhiteSpaceChar3 c c2 c3 then trimStart s3 else s
        | _ => s
        end
      else s
  | EmptyString => EmptyString
  end.

(** The value of a character as a digit in a radix up to 36. *)
Definition digitValue (c : ascii) : option Z :=
  let n := Z.of_nat (nat_of_ascii c) in
  if (48 <=? n) && (n <=? 57) then Some (n - 48)
  else if (97 <=? n) && (n <=? 122) then Some (n - 87)
  else if (65 <=? n) && (n <=? 90) then Some (n - 55)
  else None.

(** Reads the longest prefix of radix-[R] digits; [acc] is [None] until a
    first digit has been read. *)
Fixpoint readDigits (R : Z) (s : string) (acc : option Z) : option Z :=
  match s with
  | String c s' =>
      match digitValue c with
      | Some d =>
          if d <? R then readDigits R s' (Some (default 0 acc * R + d))
          else acc
      | None => acc
      end
  | EmptyString => acc
  end.

Definition parseInt_string (s : string) : jsnum :=
  let s1 := trimStart s in
  let '(sign, s2) :=
    match s1 with
    | String "-" r => (-1, r)
    | String "+" r => (1, r)
    | _ => (1, s1)
    end in
  let '(R, s3) :=
    match s2 with
    | String "0" (String "x" r) => (16, r)
    | String "0" (String "X" r) => (16, r)
    | _ => (10, s2)
    end in
  match readDigits R s3 None with
  | Some v => Num (sign * v)
  | None => NaN
  end.

(** [parseInt(v)]: the argument is converted to a string first. *)
Definition parseInt (v : jsval) : jsnum := parseInt_string (ToString v).

(** [parseInt(record.expiry)] on a stored text field; an absent field reads
    as [undefined]. *)
Definition parseInt_field (f : option string) : jsnum :=
  match f with
  | Some s => parseInt_string s
  | None => parseInt JUndefined
  end.

(** *** [ToNumber], the coercion behind the binary [-] *)

(** All characters are digits of radix [R] (the empty text included). *)
Fixpoint allDigitsIn (R : Z) (s : string) : bool :=
  match s with
  | String c s' =>
      match digitValue c with
      | Some d => (d <? R) && allDigitsIn R s'
      | None => false
      end
  | EmptyString => true
  end.

(** The value of a non-empty text made of digits of radix [R] only. *)
Definition digitsValue (R : Z) (s : string) : option Z :=
  if allDigitsIn R s then readDigits R s None else None.

(** A text that is white space only trims to nothing, from either end. *)
Fixpoint trimEnd (s : string) : string :=
  match s with
  | String c s' =>
      match trimStart s with
      | EmptyString => EmptyString
      | _ => String c (trimEnd s')
      end
  | EmptyString => EmptyString
  end.

(** The longest prefix of decimal digits, and what follows it. *)
Fixpoint spanDigits (s : string) : string * string :=
  match s with
  | String c s' =>
      match digitValue c with
      | Some d =>
          if d <? 10 then let '(ds, r) := spanDigits s' in (String c ds, r)
          else (EmptyString, s)
      | None => (EmptyString, s)
      end
  | EmptyString => (EmptyString, EmptyString)
  end.

(** What a text denotes as a [StringNumericLiteral]: an integer, a number
    [jsnum] has no value for (a fraction or an infinity), or nothing. *)
Inductive numeral : Type :=
  | Integral (z : Z)
  | Unrepresentable
  | NotNumeric.

(** [ExponentPart], optional: the exponent, or [None] when what is left of
    the text is not an exponent. *)
Definition exponentPart (s : string) : option Z :=
  match s with
  | EmptyString => Some 0
  | String c r =>
      if (byte c =? 101) || (byte c =? 69) then
        match r with
        | String "-" ds => Z.opp <$> digitsValue 10 ds
        | String "+" ds => digitsValue 10 ds
        | _ => digitsValue 10 r
        end
      else None
  end.

(** [StrUnsignedDecimalLiteral]: [Infinity], or digits with an optional
    fraction and an optional exponent, at least one digit before the
    exponent. *)
Definition unsignedDecimal (u : string) : numeral :=
  if bool_decide (u = "Infinity") then Unrepresentable
  else
    let '(ip, r1) := spanDigits u in
    let '(fp, r2) :=
      match r1 with
      | String "." r => spanDigits r
      | _ => (EmptyString, r1)
      end in
    if bool_decide (ip = "") && bool_decide (fp = "") then NotNumeric
    else
      match exponentPart r2 with
      | None => NotNumeric
      | Some e =>
          let m := default 0 (readDigits 10 (ip +:+ fp) None) in
          let scale := e - Z.of_nat (String.length fp) in
          if 0 <=? scale then Integral (m * 10 ^ scale)
          else if m mod 10 ^ (- scale) =? 0 then Integral (m / 10 ^ (- scale))
          else Unrepresentable
      end.

(** [NonDecimalIntegerLiteral]: [0x], [0o] or [0b] and digits of that radix;
    [None] when the text has no such prefix. *)
Definition nonDecimal (t : string) : option numeral :=
  match t with
  | String "0" (String p ds) =>
      let radix :=
        if (byte p =? 120) || (byte p =? 88) then Some 16
        else if (byte p =? 111) || (byte p =? 79) then Some 8
        else if (byte p =? 98) || (byte p =? 66) then Some 2
        else None in
      match radix with
      | Some R =>
          Some (match digitsValue R ds with Some v => Integral v | None => NotNumeric end)
      | None => None
      end
  | _ => None
  end.

Definition negate (n : numeral) : numeral :=
  match n with
  | Integral z => Integral (- z)
  | other => other
  end.

(** The [StringNumericLiteral] a text is once white space is trimmed from
    both ends; the empty text denotes zero. *)
Definition numericText (s : string) : numeral :=
  let t := trimEnd (trimStart s) in
  match t with
  | EmptyString => Integral 0
  | String "-" u => negate (unsignedDecimal u)
  | String "+" u => unsignedDecimal u
  | _ =>
      match nonDecimal t with
      | Some n => n
      | None => unsignedDecimal t
      end
  end.

(** [StringToNumber].  A text that denotes an integer gives that integer
    and a text that is no numeric literal gives [NaN], as in JavaScript.  A
    text that denotes a fraction or an infinity has no value in [jsnum];
    it is given [NaN] here, which is not its value, and [ToNumber_exact]
    excludes it wherever the value matters. *)
Definition StringToNumber (s : string) : jsnum :=
  match numericText s with
  | Integral z => Num z
  | Unrepresentable => NaN
  | NotNumeric => NaN
  end.

Definition ToNumber (v : jsval) : jsnum :=
  match v with
  | JUndefined => NaN
  | JNull => Num 0
  | JBool true => Num 1
  | JBool false => Num 0
  | JNum z => Num z
  | JStr s => StringToNumber s
  end.

(** The body fields on which [ToNumber] is the number JavaScript computes:
    every field but a number a double rounds and a text that denotes a
    fraction, an infinity or an integer a double rounds. *)
Definition ToNumber_exact (v : jsval) : Prop :=
  match v with
  | JNum z => safe_integer z
  | JStr s =>
      match numericText s with
      | Integral z => safe_integer z
      | Unrepresentable => False
      | NotNumeric => True
      end
  | _ => True
  end.

(** The body fields on which [parseInt] is the number JavaScript computes,
    and prints as JavaScript prints it. *)
Definition parseInt_exact (v : jsval) : Prop :=
  safe_value v /\ safe_number (parseInt v).

Global Instance ToNumber_exact_dec (v : jsval) : Decision (ToNumber_exact v).
Proof. destruct v; simpl; try apply _. destruct (numericText s); apply _. Defined.

Global Instance parseInt_exact_dec (v : jsval) : Decision (parseInt_exact v).
Proof. unfold parseInt_exact. apply _. Defined.

(** *** The date part of [Date.prototype.toISOString] *)

Definition msPerDay : Z := 86400000.

(** Proleptic Gregorian (year, month, day) of a day number counted from
    1970-01-01. *)
Definition civil_from_days (d : Z) : Z * Z * Z :=
  let z := d + 719468 in
  let era := z / 146097 in
  let doe := z - era * 146097 in
  let yoe := (doe - doe / 1460 + doe / 36524 - doe / 146096) / 365 in
  let doy := doe - (365 * yoe + yoe / 4 - yoe / 100) in
  let mp := (5 * doy + 2) / 153 in
  let day := doy - (153 * mp + 2) / 5 + 1 in
  let month := if mp <? 10 then mp + 3 else mp - 9 in
  let year := yoe + era * 400 + (if month <=? 2 then 1 else 0) in
  (year, month, day).

(** Decimal digits of a non-negative integer, left-padded with zeros to at
    least [w] characters. *)
Definition pad (w : nat) (n : Z) : string :=
  let s := pretty n in
  String.concat "" (replicate (w - String.length s) "0") +:+ s.

(** Years 0 to 9999 print on four digits, the others signed on six. *)
Definition isoYear (y : Z) : string :=
  if (0 <=? y) && (y <=? 9999) then pad 4 y
  else if y <? 0 then "-" +:+ pad 6 (- y)
  else "+" +:+ pad 6 y.

(** [new Date(t).toISOString().split('T')[0]] for a time value [t] in
    milliseconds since the epoch. *)
Definition isoDate (t : Z) : string :=
  let '(y, m, d) := civil_from_days (t / msPerDay) in
  isoYear y +:+ "-" +:+ pad 2 m +:+ "-" +:+ pad 2 d.

(** ** The [urls] collection

    The PocketBase server, the schema of its [urls] collection and the
    client library are not among the sources.  The handlers use three calls
    of the client, [getFullList], [create] and [update]; each is given
    below the contract the specification states for the record store.  The
    note at the head of [src/unnamed/part_000] says the [created] field was
    set up to change on update as well as on creation; that setting belongs
    to the schema, and here [update] changes [created] only when the field
    is among those it is given.

    The calls are those of a store that is reachable and accepts what it is
    sent: [getFullList] and [create] always return, and [update] fails only
    for an id the store does not hold.  A store that is down, or that
    rejects a request, makes the client throw, which the handlers answer
    with status 500; that failure is outside what is modelled here. *)

Record UrlRecord : Type := {
  record_id : nat;
  originalUrl : string;
  shortCode : string;
  created : Z;            (* [new Date(record.created).getTime()] *)
  expiry : option string  (* text field, absent on records written by [V1] *)
}.

Global Instance UrlRecord_eq_dec : EqDecision UrlRecord.
Proof. solve_decision. Defined.

(** The object literal passed to [update]: a field is written when present. *)
Record fields : Type := {
  set_shortCode : option string;
  set_created : option Z;
  set_expiry : option string
}.

Definition patch (f : fields) (r : UrlRecord) : UrlRecord :=
  {| record_id := record_id r;
     originalUrl := originalUrl r;
     shortCode := default (shortCode r) (set_shortCode f);
     created := default (created r) (set_created f);
     expiry := match set_expiry f with Some e => Some e | None => expiry r end |}.

(** What a request can observe and change outside the process: the
    collection, the store's id allocator, and the random source behind
    [nanoid], given as the sequence of codes its successive calls return. *)
Record world : Type := {
  urls : list UrlRecord;
  next_id : nat;
  entropy : nat -> string;
  drawn : nat
}.

Definition with_urls (l : list UrlRecord) (w : world) : world :=
  {| urls := l; next_id := next_id w; entropy := entropy w; drawn := drawn w |}.

(** An awaited call either returns or throws; what it wrote before throwing
    stays written. *)
Inductive outcome (A : Type) : Type :=
  | Returned (a : A)
  | Thrown.
Arguments Returned {A} a.
Arguments Thrown {A}.

Definition async (A : Type) : Type := world -> outcome A * world.

Definition ret {A} (a : A) : async A := fun w => (Returned a, w).

Definition bind {A B} (m : async A) (k : A -> async B) : async B :=
  fun w =>
    match m w with
    | (Returned a, w') => k a w'
    | (Thrown, w') => (Thrown, w')
    end.

Declare Scope async_scope.
Delimit Scope async_scope with async.
Notation "'await' x := m 'in' k" := (bind m (fun x => k))
  (at level 10, x name, m at level 100, k at level 200) : async_scope.
Open Scope async_scope.

(** Modelled from the spec: [pb.collection('urls').getFullList()], the
    store's full list, in the order the store returns it. *)
Definition getFullList : async (list UrlRecord) :=
  fun w => (Returned (urls w), w).

(** A link that stays inside the quotes of [originalUrl="l"]: it holds no
    double quote and no backslash. *)
Definition plain_link (l : string) : Prop :=
  Forall (fun c => byte c <> 34 /\ byte c <> 92) (String.list_ascii_of_string l).

Global Instance plain_link_dec (l : string) : Decision (plain_link l).
Proof. unfold plain_link. apply _. Defined.

(** The records selected by a filter that is the disjunction of
    [originalUrl="l"] over [alts].  The handlers splice the links into the
    filter text unescaped, so this is the filter the store receives when
    every link is a [plain_link]; for any other link the text sent is
    another filter, or none, and what the store answers is not given by
    [matching]. *)
Definition matching (alts : list string) (l : list UrlRecord) : list UrlRecord :=
  filter (fun r => originalUrl r ∈ alts) l.

(** Modelled from the spec: [pb.collection('urls').getFullList({ filter })],
    the filtered list (exact equality on [originalUrl], combined with OR),
    in the order the store returns it, for a filter built from plain
    links. *)
Definition getFullList_filter (alts : list string) : async (list UrlRecord) :=
  fun w => (Returned (matching alts (urls w)), w).

(** Modelled from the spec: [pb.collection('urls').create(data)], which
    assigns the [id] and [created] and returns the stored record.  [stamp]
    is the store's clock, identified with the instant of the request. *)
Definition create (stamp : Z) (url code : string) (exp : option string) : async UrlRecord :=
  fun w =>
    let r := {| record_id := next_id w; originalUrl := url; shortCode := code;
                created := stamp; expiry := exp |} in
    (Returned r,
     {| urls := urls w ++ [r]; next_id := S (next_id w);
        entropy := entropy w; drawn := drawn w |}).

(** Modelled from the spec: [pb.collection('urls').update(id, fields)], a
    partial update that retains the fields it is not given and returns the
    stored record; a call with an [undefined] id ([None]) or an id the
    store does not hold fails. *)
Definition update (i : option nat) (f : fields) : async UrlRecord :=
  fun w =>
    match i with
    | None => (Thrown, w)
    | Some i =>
        match list_find (fun r => record_id r = i) (urls w) with
        | Some (k, r) => (Returned (patch f r), with_urls (<[k := patch f r]> (urls w)) w)
        | None => (Thrown, w)
        end
    end.

(** [nanoid(6)] *)
Definition nanoid : async string :=
  fun w =>
    (Returned (entropy w (drawn w)),
     {| urls := urls w; next_id := next_id w;
        entropy := entropy w; drawn := S (drawn w) |}).

(** ** Responses *)

Inductive reply (A : Type) : Type :=
  | Json (body : A)                       (* [res.json(body)] *)
  | Error (status : Z) (error : string).  (* [res.status(status).json({ error })] *)
Arguments Json {A} body.
Arguments Error {A} status error.

(** [try { ... } catch (error) { return res.status(500)... }] *)
Definition try_catch {A} (m : async (reply A)) : world -> reply A * world :=
  fun w =>
    match m w with
    | (Returned r, w') => (r, w')
    | (Thrown, w') => (Error 500 "Internal server error.", w')
    end.

(** Body of a [/shorten] answer. *)
Record ShortenBody : Type := {
  res_shortCode : string;
  message : string
}.

(** One element of a [/urls/batch] answer. *)
Record BatchEntry : Type := {
  link : string;
  entry_shortCode : string;
  action : string
}.

(** One element of a [/urls/recent] answer. *)
Record RecentEntry : Type := {
  recent_shortCode : string;
  recent_originalUrl : string
}.

(** Body of a [/stats/active] answer; a group is a [{ date, count }] pair. *)
Record StatsBody : Type := {
  total : nat;
  groups : list (string * nat);
  activeRecords : list UrlRecord
}.

(** [!link]: the field is absent or the empty string. *)
Definition link_missing (l : option string) : bool :=
  match l with
  | None => true
  | Some s => bool_decide (s = "")
  end.

(** ** Plain objects used as dictionaries *)

(** Names every object literal inherits from [Object.prototype]; reading one
    of them on [{}] yields a function or an object, both truthy. *)
Definition Object_prototype : list string :=
  [ "constructor"; "__proto__"; "hasOwnProperty"; "isPrototypeOf";
    "propertyIsEnumerable"; "toLocaleString"; "toString"; "valueOf";
    "__defineGetter__"; "__defineSetter__"; "__lookupGetter__";
    "__lookupSetter__" ].

(** The result of [existingMap[url]]. *)
Inductive slot : Type :=
  | Own (r : UrlRecord)  (* a record stored under that key *)
  | Inherited            (* a member of [Object.prototype] *)
  | Missing.             (* [undefined] *)

Global Instance slot_eq_dec : EqDecision slot.
Proof. solve_decision. Defined.

Definition get (m : gmap string UrlRecord) (url : string) : slot :=
  match m !! url with
  | Some r => Own r
  | None => if bool_decide (url ∈ Object_prototype) then Inherited else Missing
  end.

(** [groupByDate]: keys in insertion order, as [Object.keys] lists them (the
    keys are dates, never array indices or inherited names). *)
Fixpoint count_of (g : list (string * nat)) (date : string) : option nat :=
  match g with
  | [] => None
  | (d, c) :: g' => if bool_decide (d = date) then Some c else count_of g' date
  end.

Fixpoint set_count (g : list (string * nat)) (date : string) (c : nat) : list (string * nat) :=
  match g with
  | [] => [(date, c)]
  | (d, c0) :: g' =>
      if bool_decide (d = date) then (d, c) :: g' else (d, c0) :: set_count g' date c
  end.

(** ** Code the two editions have verbatim in common *)

(** [activeRecords.forEach(record => { groupByDate[date] = (groupByDate[date] || 0) + 1 })] *)
Definition groupByDate (activeRecords : list UrlRecord) : list (string * nat) :=
  foldl (fun g record =>
           let date := isoDate (created record) in
           set_count g date (default 0%nat (count_of g date) + 1)%nat)
        [] activeRecords.

(** [Object.keys(groupByDate).map(date => ({ date, count: groupByDate[date] }))]
    and the object handed to [res.json] in [/stats/active]. *)
Definition stats_body (activeRecords : list UrlRecord) : StatsBody :=
  let groupByDate := groupByDate activeRecords in
  {| total := length activeRecords;
     groups := map (fun date => (date, default 0%nat (count_of groupByDate date)))
                   (map fst groupByDate);
     activeRecords := activeRecords |}.

(** [existingRecords.forEach(record => { ... existingMap[url] = record ... })]
    in [/urls/batch].  An inherited member has no [created], so the date
    comparison against it is a comparison with [NaN]. *)
Definition existingMap (existingRecords : list UrlRecord) : gmap string UrlRecord :=
  foldl (fun m record =>
           let url := originalUrl record in
           match get m url with
           | Missing => <[url := record]> m
           | Own r => if created r <? created record then <[url := record]> m else m
           | Inherited => m
           end)
        ∅ existingRecords.

(** [records.sort((a, b) => new Date(b.created) - new Date(a.created))].
    With this comparator [Array.prototype.sort], which is stable, yields
    the one arrangement in descending [created] order that keeps records
    with equal timestamps in their original order; it is computed here by
    insertion from the right. *)
Fixpoint sort_insert (r : UrlRecord) (sorted : list UrlRecord) : list UrlRecord :=
  match sorted with
  | [] => [r]
  | x :: rest =>
      if created r <? created x then x :: sort_insert r rest else r :: x :: rest
  end.

Definition sort_recent (records : list UrlRecord) : list UrlRecord :=
  foldr sort_insert [] records.

(** [records.slice(0, 5).map(record => ({ shortCode, originalUrl }))] after
    the sort: the array [/urls/recent] hands to [res.json]. *)
Definition recentRecords (records : list UrlRecord) : list RecentEntry :=
  map (fun record => {| recent_shortCode := shortCode record;
                        recent_originalUrl := originalUrl record |})
      (take 5 (sort_recent records)).

(** The [getFullList] call of [/urls/batch], skipped for an empty [links]. *)
Definition batch_existingRecords (links : list string) : async (list UrlRecord) :=
  if bool_decide (links = []) then ret [] else getFullList_filter links.

(** ** [src/index.js]: the edition with a mutable time limit *)

Module V1.

(** The module state: [let DEFAULT_TIME_LIMIT = 3600000;] next to the
    outside world. *)
Record process : Type := {
  DEFAULT_TIME_LIMIT : jsnum;
  pb : world
}.

Definition boot (w : world) : process :=
  {| DEFAULT_TIME_LIMIT := Num 3600000; pb := w |}.

(** [if (expiry) { DEFAULT_TIME_LIMIT = expiry - now; }] *)
Definition assign_limit (expiry : jsval) (now : Z) (limit : jsnum) : jsnum :=
  if truthy expiry then num_sub (ToNumber expiry) (Num now) else limit.

(** [app.post("/shorten", ...)] *)
Definition shorten (link : option string) (expiry : jsval) (now : Z) (p : process)
  : reply ShortenBody * process :=
  if link_missing link then (Error 400 "Link is required.", p)
  else
    let link := default "" link in
    let limit := assign_limit expiry now (DEFAULT_TIME_LIMIT p) in
    let '(r, w) :=
      try_catch (
        await existingRecords := getFullList_filter [link] in
        match existingRecords with
        | record :: _ =>
            let timeDiff := num_sub (Num now) (Num (created record)) in
            if num_gt timeDiff limit then
              await newShortCode := nanoid in
              await _ :=
                update (Some (record_id record))
                  {| set_shortCode := Some newShortCode;
                     set_created := None;
                     set_expiry := None |} in
              ret (Json {| res_shortCode := newShortCode;
                           message := "Existing URL was older than 1 hour; updated with new short code." |})
            else
              await code := nanoid in
              await newRecord := create now link code None in
              ret (Json {| res_shortCode := shortCode newRecord;
                           message := "Existing URL is within 1 hour; new URL record created." |})
        | [] =>
            await code := nanoid in
            await newRecord := create now link code None in
            ret (Json {| res_shortCode := shortCode newRecord;
                         message := "New URL record created." |})
        end) (pb p) in
    (r, {| DEFAULT_TIME_LIMIT := limit; pb := w |}).

(** The predicate of [records.filter(...)] in [/stats/active]. *)
Definition isActive (limit : jsnum) (now : Z) (record : UrlRecord) : bool :=
  num_le (num_sub (Num now) (Num (created record))) limit.

(** [app.get("/stats/active", ...)] *)
Definition stats_active (now : Z) (p : process) : reply StatsBody * process :=
  let '(r, w) :=
    try_catch (
      await records := getFullList in
      let activeRecords := List.filter (isActive (DEFAULT_TIME_LIMIT p) now) records in
      ret (Json (stats_body activeRecords))) (pb p) in
  (r, {| DEFAULT_TIME_LIMIT := DEFAULT_TIME_LIMIT p; pb := w |}).

(** [app.get("/urls/recent", ...)] *)
Definition urls_recent (p : process) : reply (list RecentEntry) * process :=
  let '(r, w) :=
    try_catch (
      await records := getFullList in
      ret (Json (recentRecords records))) (pb p) in
  (r, {| DEFAULT_TIME_LIMIT := DEFAULT_TIME_LIMIT p; pb := w |}).

(** The body of [for (const link of links) { ... }]. *)
Definition batch_step (m : gmap string UrlRecord) (limit : jsnum) (now : Z)
    (link : string) : async BatchEntry :=
  let fresh :=
    await code := nanoid in
    await _ := create now link code None in
    ret {| link := link; entry_shortCode := code; action := "created" |} in
  match get m link with
  | Own record =>
      if num_gt (num_sub (Num now) (Num (created record))) limit then
        await newShortCode := nanoid in
        await _ :=
          update (Some (record_id record))
            {| set_shortCode := Some newShortCode;
               set_created := None;
               set_expiry := None |} in
        ret {| link := link; entry_shortCode := newShortCode; action := "updated" |}
      else fresh
  | Inherited => fresh   (* [now - NaN > limit] is false *)
  | Missing => fresh
  end.

Fixpoint batch_loop (m : gmap string UrlRecord) (limit : jsnum) (now : Z)
    (links : list string) : async (list BatchEntry) :=
  match links with
  | [] => ret []
  | link :: rest =>
      await entry := batch_step m limit now link in
      await results := batch_loop m limit now rest in
      ret (entry :: results)
  end.

(** [app.post("/urls/batch", ...)]; the limit is assigned between the fetch
    of the existing records and the loop. *)
Definition urls_batch (links : option (list string)) (expiry : jsval) (now : Z) (p : process)
  : reply (list BatchEntry) * process :=
  match links with
  | None => (Error 400 "Links must be provided as an array.", p)
  | Some links =>
      let limit := assign_limit expiry now (DEFAULT_TIME_LIMIT p) in
      let '(r, w) :=
        try_catch (
          await existingRecords := batch_existingRecords links in
          let existingMap := existingMap existingRecords in
          await results := batch_loop existingMap limit now links in
          ret (Json results)) (pb p) in
      (r, {| DEFAULT_TIME_LIMIT := limit; pb := w |})
  end.

End V1.

(** ** [src/unnamed/part_000]: the edition with a stored [expiry] *)

Module V2.

(** [const DEFAULT_TIME_LIMIT = 3600000;] *)
Definition DEFAULT_TIME_LIMIT : Z := 3600000.

(** [expiry ? parseInt(expiry) : DEFAULT_TIME_LIMIT] *)
Definition effectiveExpiry (expiry : jsval) : jsnum :=
  if truthy expiry then parseInt expiry else Num DEFAULT_TIME_LIMIT.

(** [parseInt(record.expiry) || DEFAULT_TIME_LIMIT] *)
Definition expiryDuration (record : UrlRecord) : jsnum :=
  num_or (parseInt_field (expiry record)) (Num DEFAULT_TIME_LIMIT).

(** [app.post("/shorten", ...)] *)
Definition shorten (link : option string) (expiry : jsval) (now : Z)
  : world -> reply ShortenBody * world :=
  try_catch (
    if link_missing link then ret (Error 400 "Link is required.")
    else
      let link := default "" link in
      let effectiveExpiry := effectiveExpiry expiry in
      await existingRecords := getFullList_filter [link] in
      match existingRecords with
      | record :: _ =>
          let expiryTime := num_add (Num (created record)) effectiveExpiry in
          if num_gt (Num now) expiryTime then
            await newShortCode := nanoid in
            await updatedRecord :=
              update (Some (record_id record))
                {| set_shortCode := Some newShortCode;
                   set_created := None;
                   set_expiry := Some (num_toString effectiveExpiry) |} in
            ret (Json {| res_shortCode := shortCode updatedRecord;
                         message := "Existing URL expired; updated with new short code." |})
          else
            await updatedRecord :=
              update (Some (record_id record))
                {| set_shortCode := None;
                   set_created := Some now;
                   set_expiry := Some (num_toString effectiveExpiry) |} in
            ret (Json {| res_shortCode := shortCode updatedRecord;
                         message := "Existing URL is still active; expiry and created updated, returning same short code." |})
      | [] =>
          await code := nanoid in
          await newRecord := create now link code (Some (num_toString effectiveExpiry)) in
          ret (Json {| res_shortCode := shortCode newRecord;
                       message := "New URL record created." |})
      end).

(** The predicate of [records.filter(...)] in [/stats/active]. *)
Definition isActive (now : Z) (record : UrlRecord) : bool :=
  num_gt (num_add (Num (created record)) (expiryDuration record)) (Num now).

(** [app.get("/stats/active", ...)] *)
Definition stats_active (now : Z) : world -> reply StatsBody * world :=
  try_catch (
    await records := getFullList in
    let activeRecords := List.filter (isActive now) records in
    ret (Json (stats_body activeRecords))).

(** [app.get("/urls/recent", ...)] *)
Definition urls_recent : world -> reply (list RecentEntry) * world :=
  try_catch (
    await records := getFullList in
    ret (Json (recentRecords records))).

(** The body of [for (const link of links) { ... }]; the entry it returns is
    the one pushed on [results]. *)
Definition batch_step (m : gmap string UrlRecord) (effectiveExpiry : jsnum) (now : Z)
    (link : string) : async BatchEntry :=
  match get m link with
  | Own record =>
      let expiryTime := num_add (Num (created record)) (expiryDuration record) in
      if num_gt (Num now) expiryTime then
        await newShortCode := nanoid in
        await updatedRecord :=
          update (Some (record_id record))
            {| set_shortCode := Some newShortCode;
               set_created := None;
               set_expiry := Some (num_toString effectiveExpiry) |} in
        ret {| link := link; entry_shortCode := shortCode updatedRecord; action := "updated" |}
      else
        await updatedRecord :=
          update (Some (record_id record))
            {| set_shortCode := None;
               set_created := Some now;
               set_expiry := Some (num_toString effectiveExpiry) |} in
        ret {| link := link; entry_shortCode := shortCode updatedRecord; action := "updated" |}
  | Inherited =>
      (* [record.created] and [record.id] are [undefined]: [expiryTime] is
         [NaN], the test fails, and the refresh is sent to no record. *)
      await updatedRecord :=
        update None
          {| set_shortCode := None;
             set_created := Some now;
             set_expiry := Some (num_toString effectiveExpiry) |} in
      ret {| link := link; entry_shortCode := shortCode updatedRecord; action := "updated" |}
  | Missing =>
      await code := nanoid in
      await newRecord := create now link code (Some (num_toString effectiveExpiry)) in
      ret {| link := link; entry_shortCode := shortCode newRecord; action := "created" |}
  end.

Fixpoint batch_loop (m : gmap string UrlRecord) (effectiveExpiry : jsnum) (now : Z)
    (links : list string) : async (list BatchEntry) :=
  match links with
  | [] => ret []
  | link :: rest =>
      await entry := batch_step m effectiveExpiry now link in
      await results := batch_loop m effectiveExpiry now rest in
      ret (entry :: results)
  end.


(** The record as a rotation, respectively a refresh, leaves it. *)
Definition rotated (code ttl : string) (record : UrlRecord) : UrlRecord :=
  {| record_id := record_id record; originalUrl := originalUrl record;
     shortCode := code; created := created record; expiry := Some ttl |}.

Definition refreshed (now : Z) (ttl : string) (record : UrlRecord) : UrlRecord :=
  {| record_id := record_id record; originalUrl := originalUrl record;
     shortCode := shortCode record; created := now; expiry := Some ttl |}.

(** The two ways the loop body can end for a link whose record sits at
    index [k] of the store: rotated with the next code drawn, or refreshed. *)
Definition batch_rotation (effectiveExpiry : jsnum) (link : string) (k : nat)
    (record : UrlRecord) (w : world) : outcome BatchEntry * world :=
  (Returned {| link := link; entry_shortCode := entropy w (drawn w); action := "updated" |},
   {| urls := <[k := rotated (entropy w (drawn w)) (num_toString effectiveExpiry) record]>
                (urls w);
      next_id := next_id w; entropy := entropy w; drawn := S (drawn w) |}).

Definition batch_refresh (effectiveExpiry : jsnum) (now : Z) (link : string) (k : nat)
    (record : UrlRecord) (w : world) : outcome BatchEntry * world :=
  (Returned {| link := link; entry_shortCode := shortCode record; action := "updated" |},
   with_urls (<[k := refreshed now (num_toString effectiveExpiry) record]> (urls w)) w).

(** [app.post("/urls/batch", ...)]; [links] is [None] when the field is
    absent or not an array. *)
Definition urls_batch (links : option (list string)) (expiry : jsval) (now : Z)
  : world -> reply (list BatchEntry) * world :=
  try_catch (
    match links with
    | None => ret (Error 400 "Links must be provided as an array.")
    | Some links =>
        await existingRecords := batch_existingRecords links in
        let existingMap := existingMap existingRecords in
        let effectiveExpiry := effectiveExpiry expiry in
        await results := batch_loop existingMap effectiveExpiry now links in
        ret (Json results)
    end).

End V2.

(** ** Notions used to state the properties *)

(** Every record of the map built before the batch loop has its id in the
    store. *)
Definition ids_present (m : gmap string UrlRecord) (w : world) : Prop :=
  forall u r, m !! u = Some r -> record_id r ∈ map record_id (urls w).

(** The records of a list created on a given UTC date. *)
Definition created_on (date : string) (records : list UrlRecord) : list UrlRecord :=
  filter (fun r => isoDate (created r) = date) records.

(** The store is well formed: no two records share an id, and the
    allocator has not yet handed out an id that is in use. *)
Definition store_wf (w : world) : Prop :=
  NoDup (map record_id (urls w)) /\
  Forall (fun i => (i < next_id w)%nat) (map record_id (urls w)).

(** Everything of a record but its short code. *)
Definition frame (r : UrlRecord) : nat * string * Z * option string :=
  (record_id r, originalUrl r, created r, expiry r).

(** A computation relates the world it starts in to the world it ends in
    by [R], whether it returns or throws. *)
Definition preserves (R : world -> world -> Prop) {A : Type} (m : async A) : Prop :=
  forall w o w', m w = (o, w') -> R w w'.

(** Well-formedness carries over from one world to another. *)
Definition keeps_wf (w w' : world) : Prop := store_wf w -> store_wf w'.

(** The second world holds the records of the first, in the same order and
    under the same ids and URLs, possibly followed by new ones; the random
    source is the same and the counters have not gone back. *)
Definition extends (w w' : world) : Prop :=
  map (fun r => (record_id r, originalUrl r)) (urls w)
    `prefix_of` map (fun r => (record_id r, originalUrl r)) (urls w') /\
  entropy w' = entropy w /\
  (drawn w <= drawn w')%nat /\
  (next_id w <= next_id w')%nat.

(** As [extends], and the records of the first world have kept everything
    but their short code. *)
Definition extends_frame (w w' : world) : Prop :=
  map frame (urls w) `prefix_of` map frame (urls w').

(** The [fields] of an update that writes at most a short code. *)
Definition code_only (f : fields) : Prop :=
  set_created f = None /\ set_expiry f = None.


(** The order [/urls/recent] lists records in: the later [created] first. *)
Definition newer_first (a b : UrlRecord) : Prop := created b <= created a.

(** The projection [/urls/recent] answers with. *)
Definition recent_entry (record : UrlRecord) : RecentEntry :=
  {| recent_shortCode := shortCode record; recent_originalUrl := originalUrl record |}.

(** ** Sample data *)

(** A deterministic stand-in for the random source: the [k]-th call of
    [nanoid(6)] returns [n] followed by [k] on five digits. *)
Definition sample_entropy (k : nat) : string := "n" +:+ pad 5 (Z.of_nat k).

(** A record as [V2] writes it, created 2023-11-14T22:13:20Z, one hour TTL. *)
Definition sample_record : UrlRecord :=
  {| record_id := 1; originalUrl := "https://a.example/"; shortCode := "abc123";
     created := 1700000000000; expiry := Some "3600000" |}.

(** A record as [V1] writes it: no [expiry] field. *)
Definition legacy_record : UrlRecord :=
  {| record_id := 1; originalUrl := "https://a.example/"; shortCode := "abc123";
     created := 1700000000000; expiry := None |}.

(** A record stored with the text [0] as its TTL. *)
Definition zero_record : UrlRecord :=
  {| record_id := 7; originalUrl := "https://z.example/"; shortCode := "zzz000";
     created := 1700000000000; expiry := Some "0" |}.

Definition sample_world : world :=
  {| urls := [sample_record]; next_id := 2; entropy := sample_entropy; drawn := 0 |}.

Definition legacy_world : world :=
  {| urls := [legacy_record]; next_id := 2; entropy := sample_entropy; drawn := 0 |}.

Definition empty_world : world :=
  {| urls := []; next_id := 1; entropy := sample_entropy; drawn := 0 |}.

(** U+00A0 (no-break space) and U+FEFF, as their UTF-8 bytes. *)
Definition NBSP : string :=
  String (ascii_of_nat 194) (String (ascii_of_nat 160) EmptyString).

Definition ZWNBSP : string :=
  String (ascii_of_nat 239) (String (ascii_of_nat 187) (String (ascii_of_nat 191) EmptyString)).

(** * Properties *)

(** ** The JavaScript layer on known values *)

Example parseInt_samples :
  parseInt (JStr "42") = Num 42 /\ parseInt (JStr "  -17px") = Num (-17) /\
  parseInt (JStr "0x1f") = Num 31 /\ parseInt (JStr "abc") = NaN /\
  parseInt (JStr "") = NaN /\ parseInt (JNum 5000) = Num 5000 /\
  parseInt (JBool true) = NaN /\ parseInt_field None = NaN /\
  parseInt_field (Some "0") = Num 0 /\ parseInt (JStr "0x") = NaN /\
  parseInt (JStr "12.9") = Num 12.
Proof. vm_compute. repeat split. Qed.

Example ToNumber_samples :
  ToNumber (JStr " 12 ") = Num 12 /\ ToNumber (JStr "-7") = Num (-7) /\
  ToNumber (JStr "abc") = NaN /\ ToNumber (JStr "-") = NaN /\
  ToNumber JNull = Num 0 /\
  ToNumber (JStr "0x10") = Num 16 /\ ToNumber (JStr "0b101") = Num 5 /\
  ToNumber (JStr "0o17") = Num 15 /\ ToNumber (JStr "+0x10") = NaN /\
  ToNumber (JStr "1e3") = Num 1000 /\ ToNumber (JStr "12.0") = Num 12 /\
  ToNumber (JStr ".5e1") = Num 5 /\ ToNumber (JStr "100e-2") = Num 1 /\
  ToNumber (JStr "010") = Num 10 /\ ToNumber (JStr "12px") = NaN /\
  ToNumber (JStr "1e") = NaN /\ ToNumber (JStr ".") = NaN /\
  ToNumber (JStr (ZWNBSP +:+ " 42 " +:+ NBSP)) = Num 42.
Proof. vm_compute. repeat split. Qed.

(** Texts that denote a fraction or an infinity are told apart from texts
    that denote nothing, and are not among those [ToNumber_exact] admits. *)
Example numericText_samples :
  numericText "0.5" = Unrepresentable /\ numericText "1e-2" = Unrepresentable /\
  numericText "-Infinity" = Unrepresentable /\ numericText "abc" = NotNumeric /\
  numericText "" = Integral 0 /\
  ~ ToNumber_exact (JStr "0.5") /\ ~ ToNumber_exact (JStr "9007199254740993") /\
  ToNumber_exact (JStr "1e3") /\ ToNumber_exact (JStr "abc") /\
  ~ parseInt_exact (JNum (10 ^ 21)) /\ ~ parseInt_exact (JStr "-1000000000000000000000") /\
  parseInt_exact (JStr "abc") /\ parseInt_exact (JStr "12.9").
Proof.
  split_and!; try (by vm_compute); apply (bool_decide_unpack _); by vm_compute.
Qed.

(** [parseInt] skips the white space of Unicode, not only that of ASCII. *)
Example parseInt_white_space :
  parseInt (JStr (NBSP +:+ "42")) = Num 42 /\
  parseInt (JStr (ZWNBSP +:+ "  -42px")) = Num (-42) /\
  V2.effectiveExpiry (JStr (NBSP +:+ "42")) = Num 42.
Proof. vm_compute. repeat split. Qed.

(** The limit [V1] assigns from an [expiry] written as a literal. *)
Example V1_assign_limit_samples :
  V1.assign_limit (JStr "0x10") 1700000001000 (Num 3600000) = Num (16 - 1700000001000) /\
  V1.assign_limit (JStr "1e3") 1700000001000 (Num 3600000) = Num (1000 - 1700000001000) /\
  V1.assign_limit (JStr "12.0") 1700000001000 (Num 3600000) = Num (12 - 1700000001000) /\
  V1.assign_limit (JStr "abc") 1700000001000 (Num 3600000) = NaN /\
  V1.assign_limit JUndefined 1700000001000 (Num 3600000) = Num 3600000.
Proof. vm_compute. repeat split. Qed.

Example isoDate_samples :
  isoDate 0 = "1970-01-01" /\ isoDate (-1) = "1969-12-31" /\
  isoDate 1704067199999 = "2023-12-31" /\ isoDate 1704067200000 = "2024-01-01" /\
  isoDate 951782400000 = "2000-02-29" /\ isoDate 253402300800000 = "+010000-01-01" /\
  isoDate (-62198755200000) = "-000001-01-01".
Proof. vm_compute. repeat split. Qed.

(** ** The store *)

Section store.
Implicit Types (l : list UrlRecord) (r : UrlRecord) (f : fields) (w : world).

(** With distinct ids, looking a record up by its id finds that record. *)
Lemma find_by_id l k r :
  NoDup (map record_id l) ->
  l !! k = Some r ->
  list_find (fun x => record_id x = record_id r) l = Some (k, r).
Proof.
  intros Hnd Hk. apply list_find_Some. split_and!; [done | done |].
  intros j y Hj Hlt Heq.
  assert (j = k); [| lia].
  eapply NoDup_lookup; [exact Hnd | |].
  - rewrite list_lookup_fmap, Hj. simpl. by rewrite Heq.
  - by rewrite list_lookup_fmap, Hk.
Qed.

(** An id carried by some stored record is found. *)
Lemma find_some_id l i :
  i ∈ map record_id l ->
  exists k r, list_find (fun x => record_id x = i) l = Some (k, r) /\ record_id r = i.
Proof.
  intros Hi. apply list_elem_of_fmap in Hi as (r & -> & Hr).
  destruct (list_find_elem_of (fun x => record_id x = record_id r) l r Hr eq_refl)
    as [[k r'] Hf].
  exists k, r'. split; [done |]. by apply list_find_Some in Hf as (_ & ? & _).
Qed.

(** An update does not change the ids held by the store. *)
Lemma ids_insert_patch l k r f :
  l !! k = Some r ->
  map record_id (<[k := patch f r]> l) = map record_id l.
Proof.
  intros Hk. rewrite list_fmap_insert. simpl.
  apply list_insert_id. by rewrite list_lookup_fmap, Hk.
Qed.

Lemma matching_elem alts l r :
  r ∈ matching alts l <-> r ∈ l /\ originalUrl r ∈ alts.
Proof. unfold matching. rewrite list_elem_of_filter. tauto. Qed.

(** The step equations of the store calls. *)
Lemma update_run w k r f :
  NoDup (map record_id (urls w)) ->
  urls w !! k = Some r ->
  update (Some (record_id r)) f w =
    (Returned (patch f r), with_urls (<[k := patch f r]> (urls w)) w).
Proof. intros Hnd Hk. unfold update. by rewrite (find_by_id _ _ _ Hnd Hk). Qed.

Lemma bind_run {A B} (m : async A) (k : A -> async B) w a w' :
  m w = (Returned a, w') -> bind m k w = k a w'.
Proof. intros H. unfold bind. by rewrite H. Qed.

End store.

(** ** [/shorten] in [V2] *)

Section V2_shorten.
Variables (w : world) (url : string) (callerExpiry : jsval) (now : Z).
Variables (record : UrlRecord) (rest : list UrlRecord).
Hypothesis link_given : url <> "".
Hypothesis distinct_ids : NoDup (map record_id (urls w)).
Hypothesis first_match : matching [url] (urls w) = record :: rest.

End V2_shorten.






(** An [expiry] that opens with a no-break space is read as the number that
    follows it: a record one second old is rotated under a TTL of 42
    milliseconds. *)
Example V2_shorten_white_space_expiry :
  V2.shorten (Some "https://a.example/") (JStr (NBSP +:+ "42")) 1700000001000 sample_world =
    (Json {| res_shortCode := "n00000";
             message := "Existing URL expired; updated with new short code." |},
     {| urls := [ {| record_id := 1; originalUrl := "https://a.example/"; shortCode := "n00000";
                     created := 1700000000000; expiry := Some "42" |} ];
        next_id := 2; entropy := sample_entropy; drawn := 1 |}).
Proof. vm_compute. reflexivity. Qed.


(** ** The time limit *)

(** A truthy [expiry] makes both [V1] handlers overwrite the module
    variable with [expiry - now]. *)
Lemma V1_shorten_assigns_limit (url : string) (callerExpiry : jsval) (now : Z) (p : V1.process) :
  url <> "" ->
  V1.DEFAULT_TIME_LIMIT (snd (V1.shorten (Some url) callerExpiry now p)) =
    V1.assign_limit callerExpiry now (V1.DEFAULT_TIME_LIMIT p).
Proof.
  intros Hurl. unfold V1.shorten, link_missing.
  rewrite bool_decide_eq_false_2 by done.
  by destruct (try_catch _ _).
Qed.

Lemma V1_urls_batch_assigns_limit (links : list string) (callerExpiry : jsval) (now : Z)
    (p : V1.process) :
  V1.DEFAULT_TIME_LIMIT (snd (V1.urls_batch (Some links) callerExpiry now p)) =
    V1.assign_limit callerExpiry now (V1.DEFAULT_TIME_LIMIT p).
Proof. unfold V1.urls_batch. by destruct (try_catch _ _). Qed.

(** In [V2] a request without [expiry] is decided with one hour, whatever
    was asked before: the limit is a constant. *)
Lemma V2_effectiveExpiry_absent : V2.effectiveExpiry JUndefined = Num 3600000.
Proof. reflexivity. Qed.

(** C3.  In [V1] the default does not survive a request that carries an
    [expiry]: after [/shorten] with [expiry = 5000] (and likewise after
    [/urls/batch]) the variable holds [5000 - now], and the next request,
    which carries no [expiry], treats a record two seconds old as older
    than one hour and rotates it; under the one-hour default the same
    request finds it within the hour. *)
Theorem V1_DEFAULT_TIME_LIMIT_is_overwritten :
  let p0 := V1.boot legacy_world in
  let p1 := snd (V1.shorten (Some "https://b.example/") (JNum 5000) 1700000001000 p0) in
  let p1' := {| V1.DEFAULT_TIME_LIMIT := Num 3600000; V1.pb := V1.pb p1 |} in
  V1.DEFAULT_TIME_LIMIT p0 = Num 3600000 /\
  V1.DEFAULT_TIME_LIMIT p1 = Num (-1699999996000) /\
  V1.DEFAULT_TIME_LIMIT (snd (V1.urls_batch (Some []) (JNum 5000) 1700000001000 p0))
    = Num (-1699999996000) /\
  fst (V1.shorten (Some "https://a.example/") JUndefined 1700000002000 p1) =
    Json {| res_shortCode := "n00001";
            message := "Existing URL was older than 1 hour; updated with new short code." |} /\
  fst (V1.shorten (Some "https://a.example/") JUndefined 1700000002000 p1') =
    Json {| res_shortCode := "n00001";
            message := "Existing URL is within 1 hour; new URL record created." |}.
Proof. vm_compute. repeat split. Qed.

(** ** Unparsable TTLs *)

(** A stored [expiry] that [parseInt] cannot read, or that is absent, is
    replaced by the default where it is read back. *)
Lemma V2_expiryDuration_fallback (record : UrlRecord) :
  parseInt_field (expiry record) = NaN ->
  V2.expiryDuration record = Num V2.DEFAULT_TIME_LIMIT.
Proof. unfold V2.expiryDuration. by intros ->. Qed.

(** The duration read back from a record is always a number. *)
Lemma V2_expiryDuration_number (record : UrlRecord) :
  exists d, V2.expiryDuration record = Num d.
Proof.
  unfold V2.expiryDuration, num_or.
  destruct (parseInt_field (expiry record)) as [| z]; simpl; [by eexists |].
  destruct (z =? 0); simpl; by eexists.
Qed.

(** C4.  The TTL of a request is not given the fallback a stored one gets:
    for [expiry = "abc"] the effective TTL is [NaN].  A new link is stored
    with the text [NaN] as its [expiry]; an existing record, here more than
    a year old, is judged active because [now > NaN] is false, and is
    refreshed with the text [NaN]; [/urls/batch] stores the same text. *)
Theorem V2_unparsable_caller_expiry_is_NaN :
  V2.effectiveExpiry (JStr "abc") = NaN /\
  V2.shorten (Some "https://b.example/") (JStr "abc") 1700000001000 empty_world =
    (Json {| res_shortCode := "n00000"; message := "New URL record created." |},
     {| urls := [ {| record_id := 1; originalUrl := "https://b.example/";
                     shortCode := "n00000"; created := 1700000001000;
                     expiry := Some "NaN" |} ];
        next_id := 2; entropy := sample_entropy; drawn := 1 |}) /\
  V2.shorten (Some "https://a.example/") (JStr "abc") 1800000000000 sample_world =
    (Json {| res_shortCode := "abc123";
             message := "Existing URL is still active; expiry and created updated, returning same short code." |},
     {| urls := [ {| record_id := 1; originalUrl := "https://a.example/";
                     shortCode := "abc123"; created := 1800000000000;
                     expiry := Some "NaN" |} ];
        next_id := 2; entropy := sample_entropy; drawn := 0 |}) /\
  V2.urls_batch (Some ["https://b.example/"]) (JStr "abc") 1700000001000 empty_world =
    (Json [ {| link := "https://b.example/"; entry_shortCode := "n00000";
               action := "created" |} ],
     {| urls := [ {| record_id := 1; originalUrl := "https://b.example/";
                     shortCode := "n00000"; created := 1700000001000;
                     expiry := Some "NaN" |} ];
        next_id := 2; entropy := sample_entropy; drawn := 1 |}).
Proof. vm_compute. repeat split. Qed.

(** ** The boundary instant *)

(** [/shorten] keeps a record whose window ends exactly at [now]. *)
Lemma V2_shorten_test_at_boundary (record : UrlRecord) (ttl : Z) :
  num_gt (Num (created record + ttl)) (num_add (Num (created record)) (Num ttl)) = false.
Proof. simpl. apply Z.ltb_irrefl. Qed.

(** [/stats/active] drops a record whose window ends exactly at [now]. *)
Lemma V2_isActive_at_boundary (record : UrlRecord) (d now : Z) :
  V2.expiryDuration record = Num d ->
  created record + d = now ->
  V2.isActive now record = false.
Proof. intros Hd <-. unfold V2.isActive. rewrite Hd. simpl. apply Z.ltb_irrefl. Qed.

(** [V1] counts such a record as active. *)
Lemma V1_isActive_at_boundary (record : UrlRecord) (limit now : Z) :
  created record + limit = now ->
  V1.isActive (Num limit) now record = true.
Proof. intros <-. unfold V1.isActive. simpl. apply Z.leb_le. lia. Qed.

(** C5.  For the sample record, created at 1700000000000 with a stored and
    effective TTL of one hour, and [now = 1700003600000]: [/shorten] takes
    the refresh branch, but the filter of [/stats/active] rejects the
    record and the report is empty. *)
Theorem V2_boundary_record_refreshed_but_not_counted :
  created sample_record + 3600000 = 1700003600000 /\
  V2.effectiveExpiry JUndefined = Num 3600000 /\
  V2.expiryDuration sample_record = Num 3600000 /\
  fst (V2.shorten (Some "https://a.example/") JUndefined 1700003600000 sample_world) =
    Json {| res_shortCode := "abc123";
            message := "Existing URL is still active; expiry and created updated, returning same short code." |} /\
  V2.isActive 1700003600000 sample_record = false /\
  V2.stats_active 1700003600000 sample_world =
    (Json {| total := 0; groups := []; activeRecords := [] |}, sample_world).
Proof. vm_compute. repeat split. Qed.

(** ** [/urls/batch] in [V2] *)

Section existingMap.
Implicit Types (recs : list UrlRecord) (r : UrlRecord) (u : string).

Lemma existingMap_snoc recs r :
  existingMap (recs ++ [r]) =
    match get (existingMap recs) (originalUrl r) with
    | Missing => <[originalUrl r := r]> (existingMap recs)
    | Own r0 =>
        if created r0 <? created r then <[originalUrl r := r]> (existingMap recs)
        else existingMap recs
    | Inherited => existingMap recs
    end.
Proof. unfold existingMap. by rewrite foldl_app. Qed.

(** The map holds fetched records only, each under its own URL. *)
Lemma existingMap_lookup recs u r :
  existingMap recs !! u = Some r -> r ∈ recs /\ originalUrl r = u.
Proof.
  revert u r. induction recs as [| x recs IH] using rev_ind; intros u r.
  - unfold existingMap. simpl. by rewrite lookup_empty.
  - rewrite existingMap_snoc.
    assert (Hold : existingMap recs !! u = Some r -> r ∈ recs ++ [x] /\ originalUrl r = u).
    { intros H. destruct (IH _ _ H). split; [| done]. apply elem_of_app. by left. }
    assert (Hnew : <[originalUrl x := x]> (existingMap recs) !! u = Some r ->
                   r ∈ recs ++ [x] /\ originalUrl r = u).
    { rewrite lookup_insert. case_decide; [| done].
      intros [= <-]. split; [| done]. apply elem_of_app. right. by apply list_elem_of_singleton. }
    destruct (get (existingMap recs) (originalUrl x)) as [r0 | |]; [| done | done].
    by destruct (created r0 <? created x).
Qed.



End existingMap.




Section V2_batch.
Variables (m : gmap string UrlRecord) (eff : jsnum) (now : Z).
Implicit Types (w : world) (l : string) (links : list string).

Lemma update_some w i f :
  i ∈ map record_id (urls w) ->
  exists k r, urls w !! k = Some r /\ record_id r = i /\
    update (Some i) f w = (Returned (patch f r), with_urls (<[k := patch f r]> (urls w)) w).
Proof.
  intros Hi. destruct (find_some_id _ _ Hi) as (k & r & Hf & Hid).
  exists k, r. split_and!; [| done |].
  - by apply list_find_Some in Hf as (? & _).
  - unfold update. by rewrite Hf.
Qed.


(** A link the map knows, in a store with distinct ids: the record of the
    map is tested against the duration read back from its own [expiry]
    field, and the write goes to the stored record that has its id. *)
Lemma V2_batch_step_own l w k record r :
  get m l = Own record ->
  NoDup (map record_id (urls w)) ->
  urls w !! k = Some r ->
  record_id r = record_id record ->
  V2.batch_step m eff now l w =
    if num_gt (Num now) (num_add (Num (created record)) (V2.expiryDuration record))
    then V2.batch_rotation eff l k r w
    else V2.batch_refresh eff now l k r w.
Proof.
  intros Hget Hnd Hk Hid. unfold V2.batch_step. rewrite Hget, <- Hid.
  destruct (num_gt _ _).
  - erewrite bind_run by reflexivity.
    erewrite bind_run by (by apply update_run).
    reflexivity.
  - erewrite bind_run by (by apply update_run).
    reflexivity.
Qed.


End V2_batch.



(** C7.  The batch [[u; u; "toString"]] for a URL [u] that no stored record
    carries, on [V2]: each occurrence of [u] is given a record and a code of
    its own, then [existingMap["toString"]] reads the function every object
    inherits, which is taken for a stored record; the update sent for it
    has no id and fails, and the request is answered with status 500 and no
    entry at all, though the two records stay in the collection.  [V1], given
    the same batch, answers with three entries, the two for [u] tagged
    [created] with two codes. *)
Theorem V2_urls_batch_duplicate_then_inherited_name :
  V2.urls_batch (Some ["https://b.example/"; "https://b.example/"; "toString"])
    JUndefined 1700000001000 sample_world =
    (Error 500 "Internal server error.",
     {| urls := [ sample_record;
                  {| record_id := 2; originalUrl := "https://b.example/"; shortCode := "n00000";
                     created := 1700000001000; expiry := Some "3600000" |};
                  {| record_id := 3; originalUrl := "https://b.example/"; shortCode := "n00001";
                     created := 1700000001000; expiry := Some "3600000" |} ];
        next_id := 4; entropy := sample_entropy; drawn := 2 |}) /\
  fst (V1.urls_batch (Some ["https://b.example/"; "https://b.example/"; "toString"])
         JUndefined 1700000001000 (V1.boot legacy_world)) =
    Json [ {| link := "https://b.example/"; entry_shortCode := "n00000"; action := "created" |};
           {| link := "https://b.example/"; entry_shortCode := "n00001"; action := "created" |};
           {| link := "toString"; entry_shortCode := "n00002"; action := "created" |} ].
Proof. split; vm_compute; reflexivity. Qed.

(** C8.  The batch [["https://a.example/"; "constructor"]] on [V2]: the
    stored record of the first link is refreshed, the second link is read
    from [existingMap] as an inherited member, the update sent for it
    fails, and the request is answered with status 500: no sequence of
    entries corresponds to the two links, and the refresh is kept.  [V1],
    given the same batch, answers with one entry per link, in the order of
    the links. *)
Theorem V2_urls_batch_inherited_name_answers_no_entries :
  V2.urls_batch (Some ["https://a.example/"; "constructor"]) JUndefined 1700000001000
    sample_world =
    (Error 500 "Internal server error.",
     with_urls [ {| record_id := 1; originalUrl := "https://a.example/"; shortCode := "abc123";
                    created := 1700000001000; expiry := Some "3600000" |} ] sample_world) /\
  exists entries,
    fst (V1.urls_batch (Some ["https://a.example/"; "constructor"]) JUndefined 1700000001000
           (V1.boot legacy_world)) = Json entries /\
    map link entries = ["https://a.example/"; "constructor"].
Proof. split; [vm_compute; reflexivity |]. eexists. split; vm_compute; reflexivity. Qed.

(** The batch [[u, u]] of the sample collection, run: two records are
    added for the new URL, with the first two codes drawn. *)
Example V2_urls_batch_twice_the_same_new_url :
  V2.urls_batch (Some ["https://b.example/"; "https://b.example/"]) JUndefined 1700000001000
    sample_world =
  (Json [ {| link := "https://b.example/"; entry_shortCode := "n00000"; action := "created" |};
          {| link := "https://b.example/"; entry_shortCode := "n00001"; action := "created" |} ],
   {| urls := [ sample_record;
                {| record_id := 2; originalUrl := "https://b.example/"; shortCode := "n00000";
                   created := 1700000001000; expiry := Some "3600000" |};
                {| record_id := 3; originalUrl := "https://b.example/"; shortCode := "n00001";
                   created := 1700000001000; expiry := Some "3600000" |} ];
      next_id := 4; entropy := sample_entropy; drawn := 2 |}).
Proof. vm_compute. reflexivity. Qed.

(** A link that names a member of [Object.prototype] is read from the map
    as an existing record without an id; the refresh sent for it is
    rejected and the batch answers 500. *)
Example V2_urls_batch_inherited_name :
  V2.urls_batch (Some ["constructor"]) JUndefined 1700000001000 empty_world =
    (Error 500 "Internal server error.", empty_world).
Proof. vm_compute. reflexivity. Qed.

(** ** Which TTL the batch judges by *)

(** C2, as amended.  In the batch loop a link with a record in the map is
    judged against the duration read back from that record's own [expiry]
    field ([d], the default when the field is absent, unparsable or zero):
    the record is rotated when [now > created + d] and refreshed otherwise,
    whatever the TTL of the request, which only ends up in the [expiry]
    field written.  Record ids are assumed distinct. *)
Theorem V2_batch_judges_by_stored_expiry
    (m : gmap string UrlRecord) (eff : jsnum) (now : Z) (l : string) (w : world)
    (k : nat) (record r : UrlRecord) (d : Z) :
  get m l = Own record ->
  NoDup (map record_id (urls w)) ->
  urls w !! k = Some r ->
  record_id r = record_id record ->
  V2.expiryDuration record = Num d ->
  V2.batch_step m eff now l w =
    if created record + d <? now
    then V2.batch_rotation eff l k r w
    else V2.batch_refresh eff now l k r w.
Proof.
  intros Hget Hnd Hk Hid Hd.
  rewrite (V2_batch_step_own m eff now l w k record r Hget Hnd Hk Hid), Hd.
  reflexivity.
Qed.

Lemma V2_batch_judges_by_stored_expiry_witness :
  V2.batch_step (existingMap [sample_record]) (Num 7200000) 1700005000000
      "https://a.example/" sample_world =
    if created sample_record + 3600000 <? 1700005000000
    then V2.batch_rotation (Num 7200000) "https://a.example/" 0 sample_record sample_world
    else V2.batch_refresh (Num 7200000) 1700005000000 "https://a.example/" 0 sample_record
           sample_world.
Proof.
  apply (V2_batch_judges_by_stored_expiry (existingMap [sample_record]) (Num 7200000)
           1700005000000 "https://a.example/" sample_world 0 sample_record sample_record
           3600000).
  - by vm_compute.
  - apply (bool_decide_unpack _). by vm_compute.
  - reflexivity.
  - reflexivity.
  - reflexivity.
Defined.

(** The two handlers on one request.  The sample record is 5000 seconds old and stores a TTL of
    one hour; the request carries a TTL of two hours.  [/shorten] judges by
    the two hours and refreshes; [/urls/batch] judges by the stored hour
    and rotates. *)
Lemma V2_batch_and_shorten_disagree :
  V2.effectiveExpiry (JNum 7200000) = Num 7200000 /\
  V2.shorten (Some "https://a.example/") (JNum 7200000) 1700005000000 sample_world =
    (Json {| res_shortCode := "abc123";
             message := "Existing URL is still active; expiry and created updated, returning same short code." |},
     {| urls := [ {| record_id := 1; originalUrl := "https://a.example/";
                     shortCode := "abc123"; created := 1700005000000;
                     expiry := Some "7200000" |} ];
        next_id := 2; entropy := sample_entropy; drawn := 0 |}) /\
  V2.urls_batch (Some ["https://a.example/"]) (JNum 7200000) 1700005000000 sample_world =
    (Json [ {| link := "https://a.example/"; entry_shortCode := "n00000";
               action := "updated" |} ],
     {| urls := [ {| record_id := 1; originalUrl := "https://a.example/";
                     shortCode := "n00000"; created := 1700000000000;
                     expiry := Some "7200000" |} ];
        next_id := 2; entropy := sample_entropy; drawn := 1 |}).
Proof. vm_compute. repeat split. Qed.

(** C10.  A record whose [expiry] field is the text [0] is read back with
    the default of one hour: [/stats/active] counts it as active exactly
    while [now < created + 3600000], and the batch loop rotates it exactly
    when [now > created + 3600000] and refreshes it otherwise. *)
Theorem V2_zero_expiry_reads_as_default (record : UrlRecord) (now : Z) :
  expiry record = Some "0" ->
  V2.expiryDuration record = Num 3600000 /\
  V2.isActive now record = bool_decide (now < created record + 3600000) /\
  forall (m : gmap string UrlRecord) (eff : jsnum) (l : string) (w : world)
         (k : nat) (r : UrlRecord),
    get m l = Own record ->
    NoDup (map record_id (urls w)) ->
    urls w !! k = Some r ->
    record_id r = record_id record ->
    V2.batch_step m eff now l w =
      if bool_decide (created record + 3600000 < now)
      then V2.batch_rotation eff l k r w
      else V2.batch_refresh eff now l k r w.
Proof.
  intros Hzero.
  assert (Hd : V2.expiryDuration record = Num 3600000).
  { unfold V2.expiryDuration. by rewrite Hzero. }
  split; [done |]. split.
  - unfold V2.isActive. rewrite Hd. simpl.
    destruct (Z.ltb_spec now (created record + 3600000));
      [by rewrite bool_decide_eq_true_2 | by rewrite bool_decide_eq_false_2 by lia].
  - intros m eff l w k r Hget Hnd Hk Hid.
    rewrite (V2_batch_step_own m eff now l w k record r Hget Hnd Hk Hid), Hd. simpl.
    destruct (Z.ltb_spec (created record + 3600000) now);
      [by rewrite bool_decide_eq_true_2 | by rewrite bool_decide_eq_false_2 by lia].
Qed.

Lemma V2_zero_expiry_reads_as_default_witness :
  V2.expiryDuration zero_record = Num 3600000 /\
  V2.isActive 1700000000001 zero_record
    = bool_decide (1700000000001 < created zero_record + 3600000) /\
  forall (m : gmap string UrlRecord) (eff : jsnum) (l : string) (w : world)
         (k : nat) (r : UrlRecord),
    get m l = Own zero_record ->
    NoDup (map record_id (urls w)) ->
    urls w !! k = Some r ->
    record_id r = record_id zero_record ->
    V2.batch_step m eff 1700000000001 l w =
      if bool_decide (created zero_record + 3600000 < 1700000000001)
      then V2.batch_rotation eff l k r w
      else V2.batch_refresh eff 1700000000001 l k r w.
Proof.
  apply (V2_zero_expiry_reads_as_default zero_record 1700000000001).
  reflexivity.
Defined.

(** One millisecond after its creation the zero-TTL record is in the report
    and is refreshed, not rotated, by a batch. *)
Example V2_zero_record_run :
  let w := {| urls := [zero_record]; next_id := 8; entropy := sample_entropy; drawn := 0 |} in
  fst (V2.stats_active 1700000000001 w) =
    Json {| total := 1; groups := [("2023-11-14", 1%nat)]; activeRecords := [zero_record] |} /\
  fst (V2.urls_batch (Some ["https://z.example/"]) JUndefined 1700000000001 w) =
    Json [ {| link := "https://z.example/"; entry_shortCode := "zzz000"; action := "updated" |} ].
Proof. vm_compute. repeat split. Qed.

(** ** [/stats/active] *)

Section groupByDate.
Implicit Types (g : list (string * nat)) (d : string) (c : nat) (recs : list UrlRecord).

Lemma count_of_set_count g d c d' :
  count_of (set_count g d c) d' = if bool_decide (d = d') then Some c else count_of g d'.
Proof.
  induction g as [| [d0 c0] g IH]; simpl.
  - done.
  - destruct (bool_decide_reflect (d0 = d)) as [-> | Hne]; simpl.
    + by case_bool_decide.
    + rewrite IH. repeat case_bool_decide; congruence.
Qed.

Lemma keys_set_count g d c :
  map fst (set_count g d c) =
    if bool_decide (d ∈ map fst g) then map fst g else map fst g ++ [d].
Proof.
  induction g as [| [d0 c0] g IH].
  - done.
  - cbn [set_count]. destruct (bool_decide_reflect (d0 = d)) as [-> | Hne].
    + change (map fst ((d, c) :: g)) with (d :: map fst g).
      change (map fst ((d, c0) :: g)) with (d :: map fst g).
      rewrite bool_decide_eq_true_2; [done | left].
    + change (map fst ((d0, c0) :: set_count g d c)) with (d0 :: map fst (set_count g d c)).
      change (map fst ((d0, c0) :: g)) with (d0 :: map fst g).
      rewrite IH. case_bool_decide as Hin.
      * rewrite bool_decide_eq_true_2; [done | by right].
      * rewrite bool_decide_eq_false_2; [done |].
        intros [? | ?]%elem_of_cons; congruence.
Qed.

Lemma NoDup_set_count g d c : NoDup (map fst g) -> NoDup (map fst (set_count g d c)).
Proof.
  intros Hnd. rewrite keys_set_count. case_bool_decide as Hin; [done |].
  apply NoDup_app. split_and!; [done | | apply NoDup_singleton].
  intros x Hx ->%list_elem_of_singleton. done.
Qed.

Lemma sum_set_count g d c :
  (sum_list (map snd (set_count g d c)) + default 0 (count_of g d) =
   sum_list (map snd g) + c)%nat.
Proof.
  induction g as [| [d0 c0] g IH]; simpl.
  - lia.
  - destruct (bool_decide_reflect (d0 = d)) as [-> | Hne]; simpl; lia.
Qed.

Lemma groupByDate_snoc recs r :
  groupByDate (recs ++ [r]) =
    set_count (groupByDate recs) (isoDate (created r))
      (default 0 (count_of (groupByDate recs) (isoDate (created r))) + 1)%nat.
Proof. unfold groupByDate. by rewrite foldl_app. Qed.

Lemma created_on_snoc d recs r :
  length (created_on d (recs ++ [r])) =
    (length (created_on d recs) + if bool_decide (isoDate (created r) = d) then 1 else 0)%nat.
Proof.
  unfold created_on. rewrite filter_app, length_app. f_equal.
  case_bool_decide.
  - by rewrite filter_cons_True.
  - by rewrite filter_cons_False.
Qed.

(** A date has an entry exactly when a record was created on it, and the
    entry counts these records. *)
Lemma groupByDate_count recs d :
  count_of (groupByDate recs) d =
    match length (created_on d recs) with
    | O => None
    | n => Some n
    end.
Proof.
  induction recs as [| r recs IH] using rev_ind; [done |].
  rewrite groupByDate_snoc, count_of_set_count, created_on_snoc.
  case_bool_decide as Hd.
  - subst d. rewrite IH. destruct (length _); simpl; f_equal; lia.
  - rewrite IH, Nat.add_0_r. done.
Qed.

Lemma groupByDate_NoDup recs : NoDup (map fst (groupByDate recs)).
Proof.
  induction recs as [| r recs IH] using rev_ind; [constructor |].
  rewrite groupByDate_snoc. by apply NoDup_set_count.
Qed.

Lemma groupByDate_sum recs : sum_list (map snd (groupByDate recs)) = length recs.
Proof.
  induction recs as [| r recs IH] using rev_ind; [done |].
  rewrite groupByDate_snoc, length_app. simpl.
  pose proof (sum_set_count (groupByDate recs) (isoDate (created r))
                (default 0%nat (count_of (groupByDate recs) (isoDate (created r))) + 1)).
  lia.
Qed.

(** With distinct keys, an entry is in the list exactly when it is the one
    found under its key, and reading every key back gives the list. *)
Lemma count_of_elem g d c :
  NoDup (map fst g) -> (d, c) ∈ g <-> count_of g d = Some c.
Proof.
  induction g as [| [d0 c0] g IH]; simpl; intros Hnd.
  - split; [by intros ?%not_elem_of_nil | done].
  - apply NoDup_cons in Hnd as [Hfresh Hnd]. rewrite elem_of_cons, (IH Hnd).
    destruct (bool_decide_reflect (d0 = d)) as [-> | Hne].
    + split; [| intros [= ->]; by left].
      intros [[= ->] | Hin]; [done |].
      destruct Hfresh. apply list_elem_of_fmap. exists (d, c). split; [done |].
      by apply IH.
    + split; [| by right]. intros [[= -> _] | ?]; done.
Qed.

Lemma groups_read_back g :
  NoDup (map fst g) ->
  map (fun d => (d, default 0%nat (count_of g d))) (map fst g) = g.
Proof.
  intros Hnd. apply list_eq. intros i.
  rewrite !list_lookup_fmap. destruct (g !! i) as [[d c] |] eqn:Hi; simpl; [| done].
  assert (Hin : (d, c) ∈ g) by (by eapply list_elem_of_lookup_2).
  apply (count_of_elem g d c Hnd) in Hin. by rewrite Hin.
Qed.
End groupByDate.

(** C9.  [/stats/active] always answers; [activeRecords] is the stored
    records kept by the activity filter, in store order; [groups] has one
    entry per UTC date on which an active record was created and no other,
    its count is the number of active records created on that date; and
    [total], the number of active records, is the sum of the counts. *)
Theorem V2_stats_active_groups_by_date (now : Z) (w : world) :
  exists body,
    V2.stats_active now w = (Json body, w) /\
    activeRecords body = List.filter (V2.isActive now) (urls w) /\
    total body = length (activeRecords body) /\
    NoDup (map fst (groups body)) /\
    (forall d c, (d, c) ∈ groups body <->
                 (0 < c)%nat /\ c = length (created_on d (activeRecords body))) /\
    total body = sum_list (map snd (groups body)).
Proof.
  eexists. split; [reflexivity |].
  set (active := List.filter (V2.isActive now) (urls w)).
  assert (Hg : groups (stats_body active) = groupByDate active).
  { unfold stats_body. simpl. apply groups_read_back, groupByDate_NoDup. }
  change (activeRecords (stats_body active)) with active.
  change (total (stats_body active)) with (length active).
  rewrite Hg. split_and!; [done | done | apply groupByDate_NoDup | | by rewrite groupByDate_sum].
  intros d c. rewrite (count_of_elem _ d c (groupByDate_NoDup active)), groupByDate_count.
  destruct (length (created_on d active)); split.
  - done.
  - intros [? ->]. lia.
  - intros [= <-]. split; [lia | done].
  - by intros [_ ->].
Qed.

(** Three stored records, two of them active and created on different UTC
    dates a millisecond apart. *)
Example V2_stats_active_two_dates :
  let r1 := {| record_id := 1; originalUrl := "https://a.example/"; shortCode := "aaaaaa";
               created := 1704067199999; expiry := Some "3600000" |} in
  let r2 := {| record_id := 2; originalUrl := "https://b.example/"; shortCode := "bbbbbb";
               created := 1704067200000; expiry := None |} in
  let r3 := {| record_id := 3; originalUrl := "https://c.example/"; shortCode := "cccccc";
               created := 1704067200000; expiry := Some "1000" |} in
  let w := {| urls := [r1; r2; r3]; next_id := 4; entropy := sample_entropy; drawn := 0 |} in
  V2.stats_active 1704067300000 w =
    (Json {| total := 2;
             groups := [("2023-12-31", 1%nat); ("2024-01-01", 1%nat)];
             activeRecords := [r1; r2] |}, w).
Proof. vm_compute. reflexivity. Qed.

(** * Further properties *)

(** ** A TTL written as text and read back *)

Section ttl_text.
Implicit Types (x : N) (s : string) (acc : option Z).

Lemma digitValue_pretty_N_char x :
  (x < 10)%N -> digitValue (pretty_N_char x) = Some (Z.of_N x).
Proof.
  intros Hx.
  assert (x = 0 \/ x = 1 \/ x = 2 \/ x = 3 \/ x = 4 \/ x = 5 \/ x = 6 \/ x = 7
          \/ x = 8 \/ x = 9)%N as Hcases by lia.
  repeat (destruct Hcases as [-> | Hcases]; [reflexivity |]). by subst.
Qed.

(** Reading the digits [pretty_N_go] puts in front of [s] multiplies the
    accumulator by a power of ten and adds the number printed. *)
Lemma readDigits_pretty_N_go x :
  (0 < x)%N ->
  exists k, 0 < k /\ forall s acc,
    readDigits 10 (pretty_N_go x s) acc =
      readDigits 10 s (Some (default 0 acc * k + Z.of_N x)).
Proof.
  induction (N.lt_wf_0 x) as [x _ IH]. intros Hpos.
  assert (Hd : digitValue (pretty_N_char (x `mod` 10)) = Some (Z.of_N (x `mod` 10))).
  { apply digitValue_pretty_N_char. by apply N.mod_lt. }
  assert (Hlt : (Z.of_N (x `mod` 10) <? 10) = true).
  { apply Z.ltb_lt. pose proof (N.mod_lt x 10). lia. }
  assert (Hx : Z.of_N x = Z.of_N (x `div` 10) * 10 + Z.of_N (x `mod` 10)).
  { rewrite (N.div_mod x 10) at 1 by done. lia. }
  destruct (decide (x `div` 10 = 0)%N) as [Hz | Hnz].
  - exists 10. split; [lia |]. intros s acc.
    rewrite pretty_N_go_step, Hz, pretty_N_go_0 by done.
    cbn [readDigits]. rewrite Hd, Hlt. do 2 f_equal. rewrite Hx, Hz. lia.
  - destruct (IH (x `div` 10)%N) as (k & Hk & Hread).
    { by apply N.div_lt. }
    { by apply N.neq_0_lt_0. }
    exists (k * 10). split; [lia |]. intros s acc.
    rewrite pretty_N_go_step, Hread by done.
    cbn [readDigits]. rewrite Hd, Hlt. do 2 f_equal. simpl. rewrite Hx. lia.
Qed.

(** The text of a positive number starts with a digit from 1 to 9. *)
Lemma pretty_N_go_head x s :
  (0 < x)%N ->
  exists d t, (0 < d < 10)%N /\ pretty_N_go x s = String (pretty_N_char d) t.
Proof.
  revert s. induction (N.lt_wf_0 x) as [x _ IH]. intros s Hpos.
  rewrite pretty_N_go_step by done.
  destruct (decide (x `div` 10 = 0)%N) as [Hz | Hnz].
  - rewrite Hz, pretty_N_go_0. exists (x `mod` 10)%N, s. split; [| done].
    pose proof (N.div_mod x 10). pose proof (N.mod_lt x 10). lia.
  - apply IH; [by apply N.div_lt | by apply N.neq_0_lt_0].
Qed.

(** On a text that starts with a digit from 1 to 9, [parseInt] has no
    blank, sign or radix prefix to strip. *)
Lemma parseInt_string_digit (d : N) (t : string) :
  (0 < d < 10)%N ->
  parseInt_string (String (pretty_N_char d) t) =
    match readDigits 10 (String (pretty_N_char d) t) None with
    | Some v => Num (1 * v)
    | None => NaN
    end.
Proof.
  intros Hd.
  assert (d = 1 \/ d = 2 \/ d = 3 \/ d = 4 \/ d = 5 \/ d = 6 \/ d = 7 \/ d = 8 \/ d = 9)%N
    as Hcases by lia.
  repeat (destruct Hcases as [-> | Hcases]; [reflexivity |]). by subst.
Qed.

Lemma parseInt_string_minus_digit (d : N) (t : string) :
  (0 < d < 10)%N ->
  parseInt_string (String "-" (String (pretty_N_char d) t)) =
    match readDigits 10 (String (pretty_N_char d) t) None with
    | Some v => Num (-1 * v)
    | None => NaN
    end.
Proof.
  intros Hd.
  assert (d = 1 \/ d = 2 \/ d = 3 \/ d = 4 \/ d = 5 \/ d = 6 \/ d = 7 \/ d = 8 \/ d = 9)%N
    as Hcases by lia.
  repeat (destruct Hcases as [-> | Hcases]; [reflexivity |]). by subst.
Qed.

Lemma readDigits_pretty_positive (p : positive) :
  exists d t, (0 < d < 10)%N /\
    pretty (N.pos p) = String (pretty_N_char d) t /\
    readDigits 10 (pretty (N.pos p)) None = Some (Z.pos p).
Proof.
  unfold pretty, pretty_N. rewrite decide_False by done.
  destruct (pretty_N_go_head (N.pos p) "") as (d & t & Hd & Heq); [done |].
  exists d, t. split_and!; [lia | lia | done |].
  destruct (readDigits_pretty_N_go (N.pos p)) as (k & _ & Hread); [done |].
  rewrite Hread. simpl. done.
Qed.
End ttl_text.

(** The text [toString] gives for a number is read back by [parseInt] as
    that number, and the text of [NaN] as [NaN]. *)
Theorem parseInt_toString_round_trip (n : jsnum) :
  parseInt_string (num_toString n) = n.
Proof.
  destruct n as [| [| p | p]]; [reflexivity | reflexivity | |].
  - change (num_toString (Num (Z.pos p))) with (pretty (N.pos p)).
    destruct (readDigits_pretty_positive p) as (d & t & Hd & Heq & Hread).
    rewrite Heq in Hread |- *. rewrite (parseInt_string_digit d t Hd), Hread.
    f_equal; lia.
  - change (num_toString (Num (Z.neg p))) with (String "-" (pretty (N.pos p))).
    destruct (readDigits_pretty_positive p) as (d & t & Hd & Heq & Hread).
    rewrite Heq in Hread |- *. rewrite (parseInt_string_minus_digit d t Hd), Hread.
    f_equal; lia.
Qed.

(** X1.  A record whose [expiry] was written by a handler from the TTL [ttl],
    a number a double holds exactly, is later judged, by [/stats/active]
    and by the batch loop, with [ttl] itself when it is a non-zero number,
    and with one hour when it is zero or [NaN]. *)
Theorem V2_expiryDuration_of_written_ttl (record : UrlRecord) (ttl : jsnum) :
  safe_number ttl ->
  expiry record = Some (num_toString ttl) ->
  V2.expiryDuration record =
    match ttl with
    | Num z => if decide (z = 0) then Num 3600000 else Num z
    | NaN => Num 3600000
    end.
Proof.
  intros _ Hexp. unfold V2.expiryDuration. rewrite Hexp.
  change (parseInt_field (Some (num_toString ttl))) with (parseInt_string (num_toString ttl)).
  rewrite parseInt_toString_round_trip.
  destruct ttl as [| z]; [done |].
  unfold num_or, num_truthy. case_decide as Hz.
  - by rewrite Hz.
  - by rewrite (proj2 (Z.eqb_neq z 0) Hz).
Qed.

Lemma V2_expiryDuration_of_written_ttl_witness :
  V2.expiryDuration (V2.refreshed 1700000001000 (num_toString (Num 60000)) sample_record) =
    if decide (60000 = 0) then Num 3600000 else Num 60000.
Proof.
  apply (V2_expiryDuration_of_written_ttl
           (V2.refreshed 1700000001000 (num_toString (Num 60000)) sample_record) (Num 60000)).
  - apply (bool_decide_unpack _). by vm_compute.
  - reflexivity.
Defined.

(** X2.  The TTL of a request: an absent, [null], [false], zero or empty
    [expiry] gives one hour, and an integer a double holds exactly is taken
    as it is. *)
Theorem V2_effectiveExpiry_of_number (z : Z) :
  safe_integer z ->
  V2.effectiveExpiry (JNum z) = (if decide (z = 0) then Num 3600000 else Num z) /\
  V2.effectiveExpiry JUndefined = Num 3600000 /\
  V2.effectiveExpiry JNull = Num 3600000 /\
  V2.effectiveExpiry (JBool false) = Num 3600000 /\
  V2.effectiveExpiry (JStr "") = Num 3600000.
Proof.
  intros _. split; [| by repeat split].
  unfold V2.effectiveExpiry, truthy. case_decide as Hz.
  - by rewrite Hz.
  - rewrite (proj2 (Z.eqb_neq z 0) Hz). simpl.
    apply (parseInt_toString_round_trip (Num z)).
Qed.

Lemma V2_effectiveExpiry_of_number_witness :
  V2.effectiveExpiry (JNum 60000) = (if decide (60000 = 0) then Num 3600000 else Num 60000) /\
  V2.effectiveExpiry JUndefined = Num 3600000 /\
  V2.effectiveExpiry JNull = Num 3600000 /\
  V2.effectiveExpiry (JBool false) = Num 3600000 /\
  V2.effectiveExpiry (JStr "") = Num 3600000.
Proof.
  apply (V2_effectiveExpiry_of_number 60000).
  apply (bool_decide_unpack _). by vm_compute.
Defined.

(** ** What every handler leaves in place *)

Section preserves.
Variable R : world -> world -> Prop.
Hypothesis R_refl : forall w, R w w.
Hypothesis R_trans : forall w1 w2 w3, R w1 w2 -> R w2 w3 -> R w1 w3.

Lemma preserves_ret {A} (a : A) : preserves R (ret a).
Proof. intros w o w' [= _ <-]. apply R_refl. Qed.

Lemma preserves_bind {A B} (m : async A) (k : A -> async B) :
  preserves R m -> (forall a, preserves R (k a)) -> preserves R (bind m k).
Proof.
  intros Hm Hk w o w'. unfold bind.
  destruct (m w) as [[a |] w1] eqn:Hrun.
  - intros Hrun2. eapply R_trans; [by eapply Hm | by eapply Hk].
  - intros [= _ <-]. by eapply Hm.
Qed.

Lemma preserves_getFullList : preserves R getFullList.
Proof. intros w o w' [= _ <-]. apply R_refl. Qed.

Lemma preserves_getFullList_filter alts : preserves R (getFullList_filter alts).
Proof. intros w o w' [= _ <-]. apply R_refl. Qed.

Lemma preserves_batch_existingRecords links : preserves R (batch_existingRecords links).
Proof.
  unfold batch_existingRecords. case_bool_decide;
    [apply preserves_ret | apply preserves_getFullList_filter].
Qed.

(** The world a handler leaves is related to the one it found. *)
Lemma preserves_try_catch {A} (m : async (reply A)) w :
  preserves R m -> R w (snd (try_catch m w)).
Proof.
  intros Hm. unfold try_catch. destruct (m w) as [[r |] w'] eqn:Hrun; simpl; by eapply Hm.
Qed.
End preserves.

Section store_wf.
Implicit Types (w : world) (f : fields).

Lemma keeps_wf_refl w : keeps_wf w w.
Proof. by intros ?. Qed.

Lemma keeps_wf_trans w1 w2 w3 : keeps_wf w1 w2 -> keeps_wf w2 w3 -> keeps_wf w1 w3.
Proof. unfold keeps_wf. auto. Qed.

Lemma keeps_wf_nanoid : preserves keeps_wf nanoid.
Proof. intros w o w' [= _ <-] Hwf. exact Hwf. Qed.

Lemma keeps_wf_create stamp url code exp : preserves keeps_wf (create stamp url code exp).
Proof.
  intros w o w' [= _ <-] [Hnd Hlt]. split; simpl.
  - rewrite fmap_app. apply NoDup_app. split_and!; [done | | apply NoDup_singleton].
    intros i Hi ->%list_elem_of_singleton.
    pose proof (proj1 (Forall_forall _ _) Hlt _ Hi). simpl in *. lia.
  - rewrite fmap_app. apply Forall_app. split.
    + eapply Forall_impl; [exact Hlt |]. simpl. lia.
    + repeat constructor.
Qed.

Lemma keeps_wf_update i f : preserves keeps_wf (update i f).
Proof.
  intros w o w'. unfold update. destruct i as [i |]; [| intros [= _ <-]; apply keeps_wf_refl].
  destruct (list_find _ _) as [[k r] |] eqn:Hfind; [| intros [= _ <-]; apply keeps_wf_refl].
  intros [= _ <-] [Hnd Hlt].
  apply list_find_Some in Hfind as (Hk & _ & _).
  unfold store_wf. simpl. by rewrite (ids_insert_patch _ _ _ f Hk).
Qed.
End store_wf.

Section extends.
Implicit Types (w : world) (f : fields).

Lemma extends_refl w : extends w w.
Proof. by split_and!. Qed.

Lemma extends_trans w1 w2 w3 : extends w1 w2 -> extends w2 w3 -> extends w1 w3.
Proof.
  intros (Hp1 & He1 & Hd1 & Hn1) (Hp2 & He2 & Hd2 & Hn2).
  split_and!; [by etrans | congruence | lia | lia].
Qed.

Lemma extends_nanoid : preserves extends nanoid.
Proof. intros w o w' [= _ <-]. split_and!; simpl; [done | done | lia | lia]. Qed.

Lemma extends_create stamp url code exp : preserves extends (create stamp url code exp).
Proof.
  intros w o w' [= _ <-]. split_and!; simpl; [| done | lia | lia].
  rewrite fmap_app. by apply prefix_app_r.
Qed.

Lemma extends_update i f : preserves extends (update i f).
Proof.
  intros w o w'. unfold update. destruct i as [i |]; [| intros [= _ <-]; apply extends_refl].
  destruct (list_find _ _) as [[k r] |] eqn:Hfind; [| intros [= _ <-]; apply extends_refl].
  intros [= _ <-]. apply list_find_Some in Hfind as (Hk & _ & _).
  split_and!; simpl; [| done | lia | lia].
  rewrite list_fmap_insert. simpl.
  rewrite list_insert_id; [done |]. by rewrite list_lookup_fmap, Hk.
Qed.

Lemma extends_frame_refl w : extends_frame w w.
Proof. unfold extends_frame. reflexivity. Qed.

Lemma extends_frame_trans w1 w2 w3 :
  extends_frame w1 w2 -> extends_frame w2 w3 -> extends_frame w1 w3.
Proof. unfold extends_frame. intros. by etrans. Qed.

Lemma extends_frame_nanoid : preserves extends_frame nanoid.
Proof. intros w o w' [= _ <-]. unfold extends_frame. simpl. reflexivity. Qed.

Lemma extends_frame_create stamp url code exp :
  preserves extends_frame (create stamp url code exp).
Proof.
  intros w o w' [= _ <-]. unfold extends_frame. simpl.
  rewrite fmap_app. by apply prefix_app_r.
Qed.

Lemma extends_frame_update i f : code_only f -> preserves extends_frame (update i f).
Proof.
  intros [Hc He] w o w'. unfold update.
  destruct i as [i |]; [| intros [= _ <-]; apply extends_frame_refl].
  destruct (list_find _ _) as [[k r] |] eqn:Hfind; [| intros [= _ <-]; apply extends_frame_refl].
  intros [= _ <-]. apply list_find_Some in Hfind as (Hk & _ & _).
  unfold extends_frame. simpl. rewrite list_fmap_insert.
  rewrite list_insert_id; [done |].
  rewrite list_lookup_fmap, Hk. simpl. unfold frame, patch. simpl.
  by rewrite Hc, He.
Qed.
End extends.

Section handlers.
Variable R : world -> world -> Prop.
Hypothesis R_refl : forall w, R w w.
Hypothesis R_trans : forall w1 w2 w3, R w1 w2 -> R w2 w3 -> R w1 w3.
Hypothesis R_nanoid : preserves R nanoid.
Hypothesis R_create : forall stamp url code exp, preserves R (create stamp url code exp).

Local Ltac step :=
  first
    [ apply (preserves_ret R R_refl)
    | apply (preserves_getFullList R R_refl)
    | apply (preserves_getFullList_filter R R_refl)
    | apply (preserves_batch_existingRecords R R_refl)
    | apply R_nanoid
    | apply R_create
    | apply (preserves_bind R R_trans); [| intros ?] ].

Section V2_handlers.
Hypothesis R_update : forall i f, preserves R (update i f).

Lemma V2_batch_step_preserves m eff now l : preserves R (V2.batch_step m eff now l).
Proof.
  unfold V2.batch_step. destruct (get m l); [destruct (num_gt _ _) | |];
    repeat first [step | apply R_update].
Qed.

Lemma V2_batch_loop_preserves m eff now links : preserves R (V2.batch_loop m eff now links).
Proof.
  induction links as [| l links IH]; simpl; repeat step.
  - apply V2_batch_step_preserves.
  - exact IH.
Qed.

Lemma V2_shorten_preserves link callerExpiry now w :
  R w (snd (V2.shorten link callerExpiry now w)).
Proof.
  unfold V2.shorten. apply preserves_try_catch.
  destruct (link_missing link); [step |]. cbv zeta. repeat step.
  destruct a as [| record rest]; [| destruct (num_gt _ _)];
    repeat first [step | apply R_update].
Qed.

Lemma V2_urls_batch_preserves links callerExpiry now w :
  R w (snd (V2.urls_batch links callerExpiry now w)).
Proof.
  unfold V2.urls_batch. apply preserves_try_catch.
  destruct links as [links |]; [| step]. repeat step.
  cbv zeta. repeat step. apply V2_batch_loop_preserves.
Qed.
End V2_handlers.

Section V1_handlers.
Hypothesis R_update : forall i f, code_only f -> preserves R (update i f).

Lemma V1_batch_step_preserves m limit now l : preserves R (V1.batch_step m limit now l).
Proof.
  unfold V1.batch_step. destruct (get m l); [destruct (num_gt _ _) | |];
    repeat first [step | by apply R_update].
Qed.

Lemma V1_batch_loop_preserves m limit now links : preserves R (V1.batch_loop m limit now links).
Proof.
  induction links as [| l links IH]; simpl; repeat step.
  - apply V1_batch_step_preserves.
  - exact IH.
Qed.

Lemma V1_shorten_preserves link callerExpiry now p :
  R (V1.pb p) (V1.pb (snd (V1.shorten link callerExpiry now p))).
Proof.
  unfold V1.shorten. destruct (link_missing link); [apply R_refl |]. cbv zeta.
  match goal with |- context [try_catch ?m ?w] =>
    pose proof (preserves_try_catch R m w) as Hrun; destruct (try_catch m w) as [r w'] end.
  cbn [snd V1.pb] in *. apply Hrun. repeat step.
  destruct a as [| record rest];
    [| match goal with |- context [if ?b then _ else _] => destruct b end];
    repeat first [step | by apply R_update].
Qed.

Lemma V1_urls_batch_preserves links callerExpiry now p :
  R (V1.pb p) (V1.pb (snd (V1.urls_batch links callerExpiry now p))).
Proof.
  unfold V1.urls_batch. destruct links as [links |]; [| apply R_refl]. cbv zeta.
  match goal with |- context [try_catch ?m ?w] =>
    pose proof (preserves_try_catch R m w) as Hrun; destruct (try_catch m w) as [r w'] end.
  cbn [snd V1.pb] in *. apply Hrun. repeat step.
  apply V1_batch_loop_preserves.
Qed.
End V1_handlers.
End handlers.

(** X3.  Both writing handlers of [V2] keep the store well formed: ids stay
    distinct and below the allocator's next id. *)
Theorem V2_handlers_keep_store_wf
    (w : world) (l : option string) (links : option (list string))
    (callerExpiry : jsval) (now : Z) :
  store_wf w ->
  store_wf (snd (V2.shorten l callerExpiry now w)) /\
  store_wf (snd (V2.urls_batch links callerExpiry now w)).
Proof.
  intros Hwf. split.
  - apply (V2_shorten_preserves keeps_wf keeps_wf_refl keeps_wf_trans keeps_wf_nanoid
             keeps_wf_create keeps_wf_update l callerExpiry now w Hwf).
  - apply (V2_urls_batch_preserves keeps_wf keeps_wf_refl keeps_wf_trans keeps_wf_nanoid
             keeps_wf_create keeps_wf_update links callerExpiry now w Hwf).
Qed.

Lemma V2_handlers_keep_store_wf_witness :
  store_wf (snd (V2.shorten (Some "https://b.example/") (JNum 60000) 1700000001000
                   sample_world)) /\
  store_wf (snd (V2.urls_batch (Some ["https://a.example/"; "https://b.example/"])
                   (JNum 60000) 1700000001000 sample_world)).
Proof.
  apply (V2_handlers_keep_store_wf sample_world (Some "https://b.example/")
           (Some ["https://a.example/"; "https://b.example/"]) (JNum 60000) 1700000001000).
  split; apply (bool_decide_unpack _); by vm_compute.
Defined.

(** X4.  No writing handler of [V2] removes or reorders a record or changes the
    id or the URL of one; records are only added at the end, and the random
    source is only read forward. *)
Theorem V2_handlers_extend_store
    (w : world) (l : option string) (links : option (list string))
    (callerExpiry : jsval) (now : Z) :
  extends w (snd (V2.shorten l callerExpiry now w)) /\
  extends w (snd (V2.urls_batch links callerExpiry now w)).
Proof.
  split.
  - apply (V2_shorten_preserves extends extends_refl extends_trans extends_nanoid
             extends_create extends_update).
  - apply (V2_urls_batch_preserves extends extends_refl extends_trans extends_nanoid
             extends_create extends_update).
Qed.

(** X5.  Both writing handlers of [V1] keep the store well formed. *)
Theorem V1_handlers_keep_store_wf
    (p : V1.process) (l : option string) (links : option (list string))
    (callerExpiry : jsval) (now : Z) :
  store_wf (V1.pb p) ->
  store_wf (V1.pb (snd (V1.shorten l callerExpiry now p))) /\
  store_wf (V1.pb (snd (V1.urls_batch links callerExpiry now p))).
Proof.
  intros Hwf. split.
  - apply (V1_shorten_preserves keeps_wf keeps_wf_refl keeps_wf_trans keeps_wf_nanoid
             keeps_wf_create (fun i f _ => keeps_wf_update i f) l callerExpiry now p Hwf).
  - apply (V1_urls_batch_preserves keeps_wf keeps_wf_refl keeps_wf_trans keeps_wf_nanoid
             keeps_wf_create (fun i f _ => keeps_wf_update i f) links callerExpiry now p Hwf).
Qed.

Lemma V1_handlers_keep_store_wf_witness :
  store_wf (V1.pb (snd (V1.shorten (Some "https://a.example/") (JNum 60000) 1700000001000
                          (V1.boot legacy_world)))) /\
  store_wf (V1.pb (snd (V1.urls_batch (Some ["https://a.example/"; "https://b.example/"])
                          (JNum 60000) 1700000001000 (V1.boot legacy_world)))).
Proof.
  apply (V1_handlers_keep_store_wf (V1.boot legacy_world) (Some "https://a.example/")
           (Some ["https://a.example/"; "https://b.example/"]) (JNum 60000) 1700000001000).
  split; apply (bool_decide_unpack _); by vm_compute.
Defined.

(** X6.  The writing handlers of [V1] change nothing of a stored record but its
    short code: ids, URLs, [created] and [expiry] stay as they are, no
    record is removed or moved, and new records go to the end. *)
Theorem V1_handlers_change_short_codes_only
    (p : V1.process) (l : option string) (links : option (list string))
    (callerExpiry : jsval) (now : Z) :
  extends_frame (V1.pb p) (V1.pb (snd (V1.shorten l callerExpiry now p))) /\
  extends_frame (V1.pb p) (V1.pb (snd (V1.urls_batch links callerExpiry now p))).
Proof.
  split.
  - apply (V1_shorten_preserves extends_frame extends_frame_refl extends_frame_trans
             extends_frame_nanoid extends_frame_create extends_frame_update).
  - apply (V1_urls_batch_preserves extends_frame extends_frame_refl extends_frame_trans
             extends_frame_nanoid extends_frame_create extends_frame_update).
Qed.

(** ** [/shorten] in [V2], continued *)


(** X7.  A link no stored record carries, free of double quotes and
    backslashes, with an [expiry] that [parseInt] reads to a number a double
    holds exactly: one code is drawn and one record is added at the end,
    created at the instant of the request with the TTL of the request as its
    [expiry]; the stored records are left as they are. *)
Theorem V2_shorten_creates_for_new_link
    (w : world) (url : string) (callerExpiry : jsval) (now : Z) :
  url <> "" ->
  plain_link url ->
  parseInt_exact callerExpiry ->
  (forall r, r ∈ urls w -> originalUrl r <> url) ->
  V2.shorten (Some url) callerExpiry now w =
    (Json {| res_shortCode := entropy w (drawn w); message := "New URL record created." |},
     {| urls := urls w ++ [ {| record_id := next_id w; originalUrl := url;
                               shortCode := entropy w (drawn w); created := now;
                               expiry := Some (num_toString (V2.effectiveExpiry callerExpiry)) |} ];
        next_id := S (next_id w); entropy := entropy w; drawn := S (drawn w) |}).
Proof.
  intros Hurl _ _ Hnew.
  assert (Hnone : matching [url] (urls w) = []).
  { destruct (matching [url] (urls w)) as [| r rest] eqn:Hm; [done |]. exfalso.
    assert (r ∈ matching [url] (urls w)) as [Hr Hu]%matching_elem by (rewrite Hm; left).
    apply list_elem_of_singleton in Hu. by apply (Hnew r). }
  unfold V2.shorten, try_catch, link_missing.
  rewrite bool_decide_eq_false_2 by done.
  erewrite bind_run by reflexivity. cbv beta zeta.
  change (default "" (Some url)) with url. rewrite Hnone.
  reflexivity.
Qed.

Lemma V2_shorten_creates_for_new_link_witness :
  V2.shorten (Some "https://b.example/") (JNum 60000) 1700000001000 sample_world =
    (Json {| res_shortCode := entropy sample_world (drawn sample_world);
             message := "New URL record created." |},
     {| urls := urls sample_world ++
                [ {| record_id := next_id sample_world; originalUrl := "https://b.example/";
                     shortCode := entropy sample_world (drawn sample_world);
                     created := 1700000001000;
                     expiry := Some (num_toString (V2.effectiveExpiry (JNum 60000))) |} ];
        next_id := S (next_id sample_world); entropy := entropy sample_world;
        drawn := S (drawn sample_world) |}).
Proof.
  apply (V2_shorten_creates_for_new_link sample_world "https://b.example/" (JNum 60000)
           1700000001000).
  - discriminate.
  - apply (bool_decide_unpack _). by vm_compute.
  - apply (bool_decide_unpack _). by vm_compute.
  - intros r Hr. apply list_elem_of_singleton in Hr as ->. discriminate.
Defined.







(** ** The map built before the batch loop *)

(** Nothing is ever stored under an inherited name. *)
Lemma existingMap_inherited (recs : list UrlRecord) (u : string) :
  u ∈ Object_prototype -> existingMap recs !! u = None.
Proof.
  intros Hu. induction recs as [| x recs IH] using rev_ind; [done |].
  rewrite existingMap_snoc.
  destruct (decide (originalUrl x = u)) as [-> | Hne].
  - unfold get. rewrite IH, bool_decide_eq_true_2 by done. exact IH.
  - destruct (get _ _) as [r0 | |]; [destruct (created r0 <? created x) | |];
      by rewrite ?lookup_insert_ne.
Qed.

(** X11.  For a URL that is not an inherited name the map holds the most recently
    created of the fetched records with that URL, and among several with
    the latest timestamp the one fetched first; it has no entry exactly
    when no fetched record has the URL. *)
Theorem existingMap_most_recent (recs : list UrlRecord) (u : string) :
  u ∉ Object_prototype ->
  match existingMap recs !! u with
  | Some r =>
      originalUrl r = u /\
      exists before after,
        recs = before ++ r :: after /\
        (forall x, x ∈ before -> originalUrl x = u -> created x < created r) /\
        (forall x, x ∈ after -> originalUrl x = u -> created x <= created r)
  | None => forall x, x ∈ recs -> originalUrl x <> u
  end.
Proof.
  intros Hu. induction recs as [| x recs IH] using rev_ind.
  - unfold existingMap. simpl. rewrite lookup_empty. by intros x ?%not_elem_of_nil.
  - rewrite existingMap_snoc.
    destruct (decide (originalUrl x = u)) as [Hx | Hx].
    + subst u. unfold get.
      destruct (existingMap recs !! originalUrl x) as [r0 |] eqn:Hlook.
      * destruct IH as (Hr0 & before & after & Hrecs & Hbefore & Hafter).
        destruct (Z.ltb_spec (created r0) (created x)) as [Hlt | Hge].
        -- rewrite lookup_insert_eq. split; [done |].
           exists recs, []. split_and!; [done | | by intros y ?%not_elem_of_nil].
           intros y Hy Hurl. rewrite Hrecs in Hy.
           apply elem_of_app in Hy as [Hy | [-> | Hy]%elem_of_cons].
           ++ specialize (Hbefore y Hy Hurl). lia.
           ++ done.
           ++ specialize (Hafter y Hy Hurl). lia.
        -- rewrite Hlook. split; [done |].
           exists before, (after ++ [x]). split_and!; [| done |].
           ++ rewrite Hrecs. by rewrite <- app_assoc.
           ++ intros y [Hy | ->%list_elem_of_singleton]%elem_of_app Hurl; [by apply Hafter | lia].
      * rewrite bool_decide_eq_false_2 by done. rewrite lookup_insert_eq.
        split; [done |]. exists recs, [].
        split_and!; [done | | by intros y ?%not_elem_of_nil].
        intros y Hy Hurl. by destruct (IH y Hy).
    + assert (Hsame : forall m', m' = existingMap recs \/
                                 m' = <[originalUrl x := x]> (existingMap recs) ->
                                 m' !! u = existingMap recs !! u).
      { intros m' [-> | ->]; [done | by rewrite lookup_insert_ne]. }
      match goal with |- match ?m' !! u with _ => _ end =>
        assert (Hm : m' !! u = existingMap recs !! u)
      end.
      { apply Hsame. destruct (get _ _) as [r0 | |];
          [destruct (created r0 <? created x) | |]; auto. }
      rewrite Hm. destruct (existingMap recs !! u) as [r |].
      * destruct IH as (Hr & before & after & Hrecs & Hbefore & Hafter).
        split; [done |]. exists before, (after ++ [x]). split_and!; [| done |].
        -- rewrite Hrecs. by rewrite <- app_assoc.
        -- intros y [Hy | ->%list_elem_of_singleton]%elem_of_app Hurl; [by apply Hafter | done].
      * intros y [Hy | ->%list_elem_of_singleton]%elem_of_app; [by apply IH | done].
Qed.

Lemma existingMap_most_recent_witness :
  match existingMap [sample_record; zero_record] !! "https://a.example/" with
  | Some r =>
      originalUrl r = "https://a.example/" /\
      exists before after,
        [sample_record; zero_record] = before ++ r :: after /\
        (forall x, x ∈ before -> originalUrl x = "https://a.example/" -> created x < created r) /\
        (forall x, x ∈ after -> originalUrl x = "https://a.example/" -> created x <= created r)
  | None => forall x, x ∈ [sample_record; zero_record] -> originalUrl x <> "https://a.example/"
  end.
Proof.
  apply (existingMap_most_recent [sample_record; zero_record] "https://a.example/").
  apply (bool_decide_unpack _). by vm_compute.
Defined.

(** ** [/urls/batch] in [V2], continued *)

Lemma bind_thrown {A B} (m : async A) (k : A -> async B) (w w' : world) :
  m w = (Thrown, w') -> bind m k w = (Thrown, w').
Proof. intros H. unfold bind. by rewrite H. Qed.

Section V2_batch_report.
Variables (m : gmap string UrlRecord) (eff : jsnum) (now : Z).

Lemma ids_present_extends (w w' : world) :
  ids_present m w -> extends w w' -> ids_present m w'.
Proof.
  intros Hids (Hpre & _) u r Hu.
  specialize (Hids u r Hu). apply list_elem_of_fmap in Hids as (x & Hid & Hx).
  assert (Hin : (record_id x, originalUrl x)
                  ∈ map (fun r => (record_id r, originalUrl r)) (urls w')).
  { destruct Hpre as [tail ->]. apply elem_of_app. left.
    apply list_elem_of_fmap. by exists x. }
  apply list_elem_of_fmap in Hin as (y & [= Hy _] & Hyin).
  apply list_elem_of_fmap. exists y. split; [congruence | done].
Qed.


(** A link that reads an inherited name stops the loop with an exception. *)
Lemma V2_batch_loop_throws (links : list string) (w : world) (l : string) :
  ids_present m w ->
  l ∈ links ->
  get m l = Inherited ->
  exists w', V2.batch_loop m eff now links w = (Thrown, w').
Proof.
  revert w. induction links as [| l0 links IH]; intros w Hids Hl Hget.
  - by apply not_elem_of_nil in Hl.
  - simpl. destruct (V2.batch_step m eff now l0 w) as [[entry |] w1] eqn:Hrun.
    + erewrite bind_run by exact Hrun.
      assert (Hin : l ∈ links).
      { apply elem_of_cons in Hl as [-> | Hl]; [| done].
        unfold V2.batch_step in Hrun. rewrite Hget in Hrun. discriminate. }
      destruct (IH w1) as [w' Hloop]; [| done | done |].
      { eapply ids_present_extends; [exact Hids |].
        eapply (V2_batch_step_preserves extends extends_refl extends_trans extends_nanoid
                  extends_create extends_update). exact Hrun. }
      exists w'. by rewrite (bind_thrown _ _ _ _ Hloop).
    + exists w1. by rewrite (bind_thrown _ _ _ _ Hrun).
Qed.
End V2_batch_report.

Lemma batch_existingRecords_spec (links : list string) (w : world) :
  exists recs,
    batch_existingRecords links w = (Returned recs, w) /\
    forall r, r ∈ recs <-> r ∈ urls w /\ originalUrl r ∈ links.
Proof.
  unfold batch_existingRecords. case_bool_decide as Hnil.
  - exists []. split; [done |]. intros r. subst links. split.
    + by intros ?%not_elem_of_nil.
    + by intros [_ ?%not_elem_of_nil].
  - exists (matching links (urls w)). split; [done |]. intros r. apply matching_elem.
Qed.







(** X13.  A batch one of whose links is the name of a member of
    [Object.prototype] is answered with 500, wherever the link stands. *)
Theorem V2_urls_batch_fails_on_inherited_name
    (w : world) (links : list string) (callerExpiry : jsval) (now : Z) (l : string) :
  l ∈ links ->
  l ∈ Object_prototype ->
  fst (V2.urls_batch (Some links) callerExpiry now w) = Error 500 "Internal server error.".
Proof.
  intros Hl Hproto.
  destruct (batch_existingRecords_spec links w) as (recs & Hfetch & Hrecs).
  destruct (V2_batch_loop_throws (existingMap recs) (V2.effectiveExpiry callerExpiry) now
              links w l) as [w' Hloop].
  - intros u r Hu. apply existingMap_lookup in Hu as [Hin _].
    apply list_elem_of_fmap. exists r. split; [done | by apply Hrecs].
  - done.
  - unfold get. by rewrite (existingMap_inherited recs l Hproto), bool_decide_eq_true_2.
  - unfold V2.urls_batch, try_catch.
    erewrite bind_run by exact Hfetch. cbv beta zeta.
    by rewrite (bind_thrown _ _ _ _ Hloop).
Qed.

Lemma V2_urls_batch_fails_on_inherited_name_witness :
  fst (V2.urls_batch (Some ["https://b.example/"; "toString"]) JUndefined 1700000001000
         sample_world) = Error 500 "Internal server error.".
Proof.
  apply (V2_urls_batch_fails_on_inherited_name sample_world ["https://b.example/"; "toString"]
           JUndefined 1700000001000 "toString").
  - apply (bool_decide_unpack _). by vm_compute.
  - apply (bool_decide_unpack _). by vm_compute.
Defined.



(** ** [/urls/batch] in [V1] *)

Section V1_batch.
Variables (m : gmap string UrlRecord) (limit : jsnum) (now : Z).


End V1_batch.


(** The same two links, the second an inherited name, in both editions. *)
Example urls_batch_inherited_name_in_both_editions :
  fst (V1.urls_batch (Some ["https://b.example/"; "toString"]) JUndefined 1700000001000
         (V1.boot legacy_world)) =
    Json [ {| link := "https://b.example/"; entry_shortCode := "n00000"; action := "created" |};
           {| link := "toString"; entry_shortCode := "n00001"; action := "created" |} ] /\
  fst (V2.urls_batch (Some ["https://b.example/"; "toString"]) JUndefined 1700000001000
         legacy_world) = Error 500 "Internal server error.".
Proof. vm_compute. repeat split. Qed.

(** ** [/shorten] in [V1] *)

(** X16.  Every request [V1] accepts, for a link free of double quotes and
    backslashes, is answered with the code it draws, never with a stored
    one: one code is drawn per request, whether the link is new, within the
    limit or older. *)
Theorem V1_shorten_answers_with_a_new_code
    (p : V1.process) (url : string) (callerExpiry : jsval) (now : Z) :
  url <> "" ->
  plain_link url ->
  exists msg p',
    V1.shorten (Some url) callerExpiry now p =
      (Json {| res_shortCode := entropy (V1.pb p) (drawn (V1.pb p)); message := msg |}, p') /\
    drawn (V1.pb p') = S (drawn (V1.pb p)).
Proof.
  intros Hurl _. unfold V1.shorten, link_missing.
  rewrite bool_decide_eq_false_2 by done. cbv zeta.
  change (default "" (Some url)) with url. unfold try_catch.
  erewrite bind_run by reflexivity.
  destruct (matching [url] (urls (V1.pb p))) as [| record rest] eqn:Hm.
  - by eexists _, _.
  - destruct (num_gt _ _); [| by eexists _, _].
    erewrite bind_run by reflexivity.
    edestruct update_some as (k & r & _ & _ & Hup); [| erewrite bind_run by exact Hup].
    { apply list_elem_of_fmap. exists record. split; [done |].
      assert (record ∈ matching [url] (urls (V1.pb p))) as [? _]%matching_elem
        by (rewrite Hm; left).
      done. }
    by eexists _, _.
Qed.

Lemma V1_shorten_answers_with_a_new_code_witness :
  exists msg p',
    V1.shorten (Some "https://a.example/") JUndefined 1700000001000 (V1.boot legacy_world) =
      (Json {| res_shortCode := entropy (V1.pb (V1.boot legacy_world))
                                  (drawn (V1.pb (V1.boot legacy_world)));
               message := msg |}, p') /\
    drawn (V1.pb p') = S (drawn (V1.pb (V1.boot legacy_world))).
Proof.
  apply (V1_shorten_answers_with_a_new_code (V1.boot legacy_world) "https://a.example/"
           JUndefined 1700000001000).
  - discriminate.
  - apply (bool_decide_unpack _). by vm_compute.
Defined.



(** ** [/stats/active], continued *)

Lemma filter_length_le (P Q : UrlRecord -> bool) (l : list UrlRecord) :
  (forall r, r ∈ l -> Q r = true -> P r = true) ->
  (length (List.filter Q l) <= length (List.filter P l))%nat.
Proof.
  induction l as [| x l IH]; intros Himp; [done |]. simpl.
  assert (IH' : (length (List.filter Q l) <= length (List.filter P l))%nat).
  { apply IH. intros r Hr. apply Himp. by right. }
  destruct (Q x) eqn:HQ.
  - rewrite (Himp x) by (done || left). simpl. lia.
  - destruct (P x); simpl; lia.
Qed.

Lemma V2_isActive_earlier (record : UrlRecord) (now1 now2 : Z) :
  now1 <= now2 -> V2.isActive now2 record = true -> V2.isActive now1 record = true.
Proof.
  intros Hle. unfold V2.isActive.
  destruct (V2_expiryDuration_number record) as [d ->]. simpl.
  rewrite !Z.ltb_lt. lia.
Qed.

(** X18.  On an unchanged store the report only shrinks as time passes: a record
    active at a later instant is active at every earlier one, so the later
    [total] is at most the earlier one; the report leaves the store as it
    is. *)
Theorem V2_stats_active_shrinks_with_time (w : world) (now1 now2 : Z) :
  now1 <= now2 ->
  exists body1 body2,
    V2.stats_active now1 w = (Json body1, w) /\
    V2.stats_active now2 w = (Json body2, w) /\
    (forall r, r ∈ activeRecords body2 -> r ∈ activeRecords body1) /\
    (total body2 <= total body1)%nat.
Proof.
  intros Hle. eexists _, _. split; [reflexivity |]. split; [reflexivity |].
  unfold stats_body. simpl. split.
  - intros r Hr. apply list_elem_of_In in Hr. apply filter_In in Hr as [Hr Hact].
    apply list_elem_of_In, filter_In. split; [done |]. by eapply V2_isActive_earlier.
  - apply filter_length_le. intros r _. by apply V2_isActive_earlier.
Qed.

Lemma V2_stats_active_shrinks_with_time_witness :
  exists body1 body2,
    V2.stats_active 1700000001000 sample_world = (Json body1, sample_world) /\
    V2.stats_active 1700003600000 sample_world = (Json body2, sample_world) /\
    (forall r, r ∈ activeRecords body2 -> r ∈ activeRecords body1) /\
    (total body2 <= total body1)%nat.
Proof.
  apply (V2_stats_active_shrinks_with_time sample_world 1700000001000 1700003600000).
  by vm_compute.
Defined.

(** X19.  In [V1] the report is taken with whatever limit the last request left.
    Once the limit is negative or [NaN], which is what a request carrying a
    TTL in milliseconds or an unparsable [expiry] leaves, no record created
    up to [now] is reported. *)
Theorem V1_stats_active_empty_after_overwrite (p : V1.process) (now : Z) :
  (V1.DEFAULT_TIME_LIMIT p = NaN \/ exists lim, V1.DEFAULT_TIME_LIMIT p = Num lim /\ lim < 0) ->
  Forall (fun r => created r <= now) (urls (V1.pb p)) ->
  V1.stats_active now p = (Json {| total := 0; groups := []; activeRecords := [] |}, p).
Proof.
  intros Hlimit Hpast.
  assert (Hnone : List.filter (V1.isActive (V1.DEFAULT_TIME_LIMIT p) now) (urls (V1.pb p)) = []).
  { induction Hpast as [| r l Hr Hl IH]; [done |]. simpl. rewrite IH.
    assert (Hr' : V1.isActive (V1.DEFAULT_TIME_LIMIT p) now r = false); [| by rewrite Hr'].
    unfold V1.isActive. destruct Hlimit as [-> | (lim & -> & Hneg)]; [done |].
    simpl. apply Z.leb_gt. lia. }
  unfold V1.stats_active, try_catch. erewrite bind_run by reflexivity.
  rewrite Hnone. by destruct p.
Qed.

Lemma V1_stats_active_empty_after_overwrite_witness :
  V1.stats_active 1700000002000
    (snd (V1.shorten (Some "https://b.example/") (JNum 3600000) 1700000001000
            (V1.boot legacy_world))) =
  (Json {| total := 0; groups := []; activeRecords := [] |},
   snd (V1.shorten (Some "https://b.example/") (JNum 3600000) 1700000001000
          (V1.boot legacy_world))).
Proof.
  apply (V1_stats_active_empty_after_overwrite
           (snd (V1.shorten (Some "https://b.example/") (JNum 3600000) 1700000001000
                   (V1.boot legacy_world))) 1700000002000).
  - right. exists (-1699996401000). by vm_compute.
  - apply (bool_decide_unpack _). by vm_compute.
Defined.

(** ** [/urls/recent] *)

Section sort_recent.
Implicit Types (r : UrlRecord) (l : list UrlRecord).

Lemma sort_insert_perm r l : sort_insert r l ≡ₚ r :: l.
Proof.
  induction l as [| x l IH]; simpl; [done |].
  destruct (created r <? created x); [| done].
  rewrite IH. apply Permutation_swap.
Qed.

Lemma sort_recent_perm l : sort_recent l ≡ₚ l.
Proof.
  induction l as [| r l IH]; simpl; [done |].
  change (foldr sort_insert [] l) with (sort_recent l).
  by rewrite sort_insert_perm, IH.
Qed.

Lemma sort_insert_sorted r l :
  StronglySorted newer_first l -> StronglySorted newer_first (sort_insert r l).
Proof.
  induction 1 as [| x l Hl IH Hx]; simpl.
  - repeat constructor.
  - destruct (Z.ltb_spec (created r) (created x)) as [Hlt | Hge].
    + constructor; [done |]. rewrite sort_insert_perm.
      constructor; [unfold newer_first; lia | done].
    + constructor; [by constructor |]. constructor; [done |].
      eapply Forall_impl; [exact Hx |]. unfold newer_first. intros y ?. lia.
Qed.

Lemma sort_recent_sorted l : StronglySorted newer_first (sort_recent l).
Proof.
  induction l as [| r l IH]; simpl; [constructor |]. by apply sort_insert_sorted.
Qed.

(** The sort is stable: records with the same timestamp keep their order. *)
Lemma sort_insert_stable (t : Z) r l :
  filter (fun x => created x = t) (sort_insert r l) = filter (fun x => created x = t) (r :: l).
Proof.
  induction l as [| x l IH]; simpl; [done |].
  destruct (Z.ltb_spec (created r) (created x)) as [Hlt | Hge]; [| done].
  destruct (decide (created x = t)) as [Hx | Hx].
  - rewrite filter_cons_True, IH by done.
    rewrite (filter_cons_False _ r) by lia.
    by rewrite (filter_cons_False _ r), filter_cons_True by (done || lia).
  - rewrite filter_cons_False, IH by done.
    destruct (decide (created r = t)).
    + by rewrite !(filter_cons_True _ r), filter_cons_False by done.
    + by rewrite !(filter_cons_False _ r), filter_cons_False by done.
Qed.

Lemma sort_recent_stable (t : Z) l :
  filter (fun x => created x = t) (sort_recent l) = filter (fun x => created x = t) l.
Proof.
  induction l as [| r l IH]; simpl; [done |].
  change (foldr sort_insert [] l) with (sort_recent l).
  rewrite sort_insert_stable. destruct (decide (created r = t)).
  - by rewrite !filter_cons_True, IH by done.
  - by rewrite !filter_cons_False, IH by done.
Qed.
End sort_recent.

(** X20.  [/urls/recent] answers, without touching the store, with the short
    code and URL of [min 5 n] of the [n] stored records, latest [created]
    first; no record left out is more recent than one listed, and records
    with the same timestamp are ranked in store order.  Both editions give
    the same answer. *)
Theorem urls_recent_lists_the_latest_five (w : world) (p : V1.process) :
  exists picked others,
    V2.urls_recent w = (Json (map recent_entry picked), w) /\
    length picked = Nat.min 5 (length (urls w)) /\
    picked ++ others ≡ₚ urls w /\
    StronglySorted newer_first picked /\
    (forall a b, a ∈ picked -> b ∈ others -> created b <= created a) /\
    (forall t, filter (fun x => created x = t) (picked ++ others)
               = filter (fun x => created x = t) (urls w)) /\
    fst (V1.urls_recent p) = fst (V2.urls_recent (V1.pb p)).
Proof.
  exists (take 5 (sort_recent (urls w))), (drop 5 (sort_recent (urls w))).
  pose proof (sort_recent_sorted (urls w)) as Hsorted.
  pose proof (sort_recent_perm (urls w)) as Hperm.
  split_and!.
  - reflexivity.
  - rewrite length_take, (Permutation_length Hperm). lia.
  - by rewrite take_drop.
  - rewrite <- (take_drop 5 (sort_recent (urls w))) in Hsorted.
    by apply StronglySorted_app_1_l in Hsorted.
  - rewrite <- (take_drop 5 (sort_recent (urls w))) in Hsorted.
    intros a b Ha Hb. by apply (StronglySorted_app_1_elem_of _ _ _ _ _ Hsorted).
  - intros t. by rewrite take_drop, sort_recent_stable.
  - by destruct p.
Qed.

(** Seven stored records, two of them with the same timestamp. *)
Example urls_recent_of_seven :
  let rec_at (i t : Z) :=
    {| record_id := Z.to_nat i; originalUrl := "https://" +:+ pretty i +:+ ".example/";
       shortCode := "c" +:+ pad 5 i; created := t; expiry := None |} in
  let w := {| urls := [rec_at 1 30; rec_at 2 70; rec_at 3 10; rec_at 4 50; rec_at 5 70;
                       rec_at 6 20; rec_at 7 60];
              next_id := 8; entropy := sample_entropy; drawn := 0 |} in
  fst (V2.urls_recent w) =
    Json (map recent_entry [rec_at 2 70; rec_at 5 70; rec_at 7 60; rec_at 4 50; rec_at 1 30]).
Proof. vm_compute. reflexivity. Qed.

(** ** A stored URL twice in one batch *)




(** ** [/stats/active] in [V1] *)

(** X22.  In [V1] a stored record is reported exactly when the limit currently
    held by the module variable is a number and the record's age does not
    exceed it; the reported records are grouped by UTC date of creation,
    each group counting its records, and [total] is the sum of the counts. *)
Theorem V1_stats_active_groups_by_date (now : Z) (p : V1.process) :
  exists body,
    V1.stats_active now p = (Json body, p) /\
    (forall r, r ∈ activeRecords body <->
               r ∈ urls (V1.pb p) /\
               exists lim, V1.DEFAULT_TIME_LIMIT p = Num lim /\ now - created r <= lim) /\
    NoDup (map fst (groups body)) /\
    (forall d c, (d, c) ∈ groups body <->
                 (0 < c)%nat /\ c = length (created_on d (activeRecords body))) /\
    total body = sum_list (map snd (groups body)).
Proof.
  set (active := List.filter (V1.isActive (V1.DEFAULT_TIME_LIMIT p) now) (urls (V1.pb p))).
  exists (stats_body active).
  assert (Hg : groups (stats_body active) = groupByDate active).
  { unfold stats_body. simpl. apply groups_read_back, groupByDate_NoDup. }
  change (activeRecords (stats_body active)) with active.
  change (total (stats_body active)) with (length active).
  rewrite Hg. split_and!.
  - unfold V1.stats_active, try_catch. erewrite bind_run by reflexivity. by destruct p.
  - intros r. subst active. rewrite list_elem_of_In, filter_In, <- list_elem_of_In.
    unfold V1.isActive. destruct (V1.DEFAULT_TIME_LIMIT p) as [| lim]; simpl.
    + split; [by intros [_ ?] | by intros [_ (lim & ? & _)]].
    + rewrite Z.leb_le. split.
      * intros [? ?]. split; [done |]. by exists lim.
      * intros [? (lim' & [= <-] & ?)]. done.
  - apply groupByDate_NoDup.
  - intros d c. rewrite (count_of_elem _ d c (groupByDate_NoDup active)), groupByDate_count.
    destruct (length (created_on d active)); split.
    + done.
    + intros [? ->]. lia.
    + intros [= <-]. split; [lia | done].
    + by intros [_ ->].
  - by rewrite groupByDate_sum.
Qed.
